(** * LFR_Analysis: the community evaluation core of [lfr_analysis.py]

    A shallow embedding of the four functions of [src/lfr_analysis.py]
    ([graph_size_from_file], [true_community_helper], [get_true_community]
    and [LFR_error_stats]) and of the sweep of its script, together with
    the Python built-ins they call, followed by the properties of the
    specification and further properties of the code.

    Modelling conventions.
    - A file is the text that [open(dir, "r")] delivers (after decoding and
      newline translation), a [string] whose characters are code points
      below 256.
    - A Python exception is a value of [exn]; a computation that may raise
      is a [result]. A [ZeroDivisionError] carries the line of the source
      its traceback ends at, which tells the three divisions of
      [LFR_error_stats] apart.
    - [dict] and [set] are stdpp's [gmap] and [gset].
    - [len(x) / len(y)] and the float arithmetic of the F1 score are taken
      in the field of rationals [Qc]: the value is the number the binary64
      result approximates, and [ZeroDivisionError] is raised exactly when
      the divisor is zero, as in Python (a quotient of two set sizes is
      zero only when its numerator is, and a sum of two non-negative floats
      is zero only when both are). *)

From Stdlib Require Import ZArith QArith Qcanon String Ascii List Lia.
From stdpp Require Import base gmap strings list fin_maps fin_sets pretty.

#[local] Set Warnings "-clear-no-such-hyp".

Local Open Scope string_scope.
Local Open Scope Z_scope.

(** ** Exceptions and the error monad *)

Inductive exn : Type :=
| ValueError
| KeyError
| ZeroDivisionError (lineno : Z).

(** [KeyError] is the only one of the three that derives from
    [LookupError]. *)
Definition is_LookupError (e : exn) : bool :=
  match e with
  | KeyError => true
  | ValueError | ZeroDivisionError _ => false
  end.

Inductive result (A : Type) : Type :=
| Ok (a : A)
| Raise (e : exn).
Arguments Ok {A} a.
Arguments Raise {A} e.

#[global] Instance result_ret : MRet result := λ A a, Ok a.
#[global] Instance result_bind : MBind result := λ A B f m,
  match m with
  | Ok a => f a
  | Raise e => Raise e
  end.

Definition raises {A} (m : result A) : bool :=
  match m with
  | Ok _ => false
  | Raise _ => true
  end.

(** ** Python built-ins on [str] *)

Module Py.

Definition ord (c : ascii) : Z := Z.of_N (N_of_ascii c).

(** [str.isspace] on one character: the characters [str.strip()] removes. *)
Definition isspace (c : ascii) : bool :=
  let n := ord c in
  ((9 <=? n) && (n <=? 13)) || ((28 <=? n) && (n <=? 32))
  || (n =? 133) || (n =? 160).

(** The characters [int()] skips around a numeral: C's [isspace] on ASCII
    and the Unicode spaces above it; the separators 28..31 are not among
    them. *)
Definition int_isspace (c : ascii) : bool :=
  let n := ord c in
  ((9 <=? n) && (n <=? 13)) || (n =? 32) || (n =? 133) || (n =? 160).

Definition newline : ascii := "010"%char.

(** [fp.readlines()]: every line keeps its terminating newline; a last line
    without one is returned as it is. *)
Fixpoint readlines (s : string) : list string :=
  match s with
  | EmptyString => []
  | String c s' =>
      if Ascii.eqb c newline then String c EmptyString :: readlines s'
      else match readlines s' with
           | [] => [String c EmptyString]
           | l :: ls => String c l :: ls
           end
  end.

Fixpoint lstrip_with (sp : ascii → bool) (s : string) : string :=
  match s with
  | EmptyString => EmptyString
  | String c s' => if sp c then lstrip_with sp s' else s
  end.

Fixpoint rstrip_with (sp : ascii → bool) (s : string) : string :=
  match s with
  | EmptyString => EmptyString
  | String c s' =>
      match rstrip_with sp s' with
      | EmptyString => if sp c then EmptyString else String c EmptyString
      | r => String c r
      end
  end.

(** [s.strip()] *)
Definition strip (s : string) : string :=
  rstrip_with isspace (lstrip_with isspace s).

(** [s.startswith(p)] *)
Fixpoint startswith (s p : string) {struct p} : bool :=
  match p with
  | EmptyString => true
  | String a p' =>
      match s with
      | EmptyString => false
      | String c s' => Ascii.eqb a c && startswith s' p'
      end
  end.

(** [sub in s] *)
Fixpoint contains (sub s : string) : bool :=
  startswith s sub ||
  match s with
  | EmptyString => false
  | String _ s' => contains sub s'
  end.

(** The scan of [s.split(sep)] for a non-empty [sep]: occurrences are taken
    from the left and do not overlap; [skip] counts the characters of the
    occurrence being stepped over. *)
Fixpoint split_go (sep : string) (skip : nat) (s : string) : list string :=
  match s with
  | EmptyString => [EmptyString]
  | String c s' =>
      match skip with
      | S k => split_go sep k s'
      | O =>
          if startswith s sep
          then EmptyString :: split_go sep (Nat.pred (String.length sep)) s'
          else match split_go sep O s' with
               | [] => [String c EmptyString]
               | p :: ps => String c p :: ps
               end
      end
  end.

(** [s.split(sep)]; an empty separator is a [ValueError]. *)
Definition split (s sep : string) : result (list string) :=
  match sep with
  | EmptyString => Raise ValueError
  | _ => Ok (split_go sep O s)
  end.

(** [a, b = xs]: anything but two items is a [ValueError]. *)
Definition unpack2 {A} (xs : list A) : result (A * A) :=
  match xs with
  | [a; b] => Ok (a, b)
  | _ => Raise ValueError
  end.

Definition digit (c : ascii) : option Z :=
  let n := ord c in
  if (48 <=? n) && (n <=? 57) then Some (n - 48) else None.

(** Decimal digits, each pair of them separated by at most one underscore;
    [prev] tells whether the character before was a digit. *)
Fixpoint digits (acc : Z) (prev : bool) (s : string) : option Z :=
  match s with
  | EmptyString => if prev then Some acc else None
  | String c s' =>
      match digit c with
      | Some d => digits (10 * acc + d) true s'
      | None =>
          if Ascii.eqb c "_"%char && prev then digits acc false s' else None
      end
  end.

(** [int(s)]: surrounding space, one optional sign, then the digits. (The
    cap CPython 3.11 puts on the number of digits, 4300 unless configured
    otherwise, is left out: a numeral above it is a [ValueError] there.) *)
Definition int (s : string) : result Z :=
  let t := rstrip_with int_isspace (lstrip_with int_isspace s) in
  let '(neg, body) :=
    match t with
    | String "-"%char r => (true, r)
    | String "+"%char r => (false, r)
    | _ => (false, t)
    end in
  match digits 0 false body with
  | Some n => Ok (if neg : bool then - n else n)
  | None => Raise ValueError
  end.

End Py.

Definition tab : string := String "009"%char EmptyString.
Definition nl : string := String Py.newline EmptyString.

(** ** Python built-ins on [set], [dict] and numbers *)

(** [len(s)] *)
Definition len `{Countable A} (s : gset A) : Z := Z.of_nat (size s).

(** [a.symmetric_difference(b)] *)
Definition symmetric_difference (a b : gset Z) : gset Z := (a ∖ b) ∪ (b ∖ a).

(** [set(range(lo, hi))] *)
Definition set_range (lo hi : Z) : gset Z := list_to_set (seqZ lo (hi - lo)).

(** [d[k]]: a missing key is a [KeyError]. *)
Definition getitem `{Countable K} {V} (d : gmap K V) (k : K) : result V :=
  match d !! k with
  | Some v => Ok v
  | None => Raise KeyError
  end.

(** [x / y] on line [lineno]: a zero divisor is a [ZeroDivisionError]
    raised there. *)
Definition truediv (lineno : Z) (x y : Qc) : result Qc :=
  if decide (y = 0%Qc) then Raise (ZeroDivisionError lineno)
  else Ok (x / y)%Qc.

(** ** The program *)

(** *** [graph_size_from_file] *)

(** The body of [for i in fp.readlines()], with the two accumulators. *)
Fixpoint graph_size_loop (split : string) (lines : list string)
    (nodes : gset string) (edges : Z) : result (gset string * Z) :=
  match lines with
  | [] => Ok (nodes, edges)
  | i :: lines' =>
      let i := Py.strip i in
      if negb (Py.contains "-1" i) && negb (String.eqb i "")
      then
        '(a, b) ← Py.split i split ≫= Py.unpack2;
        let nodes := {[a]} ∪ nodes in
        let nodes := {[b]} ∪ nodes in
        graph_size_loop split lines' nodes (edges + 1)
      else Ok (nodes, edges)
  end.

Definition graph_size_from_file (dir : string) (split : string)
    : result (Z * Z) :=
  '(nodes, edges) ← graph_size_loop split (Py.readlines dir) ∅ 0;
  Ok (len nodes, edges).

(** The default of the keyword argument [split]. *)
Definition default_split : string := " ".

(** *** [true_community_helper] *)

Fixpoint true_community_loop (lines : list string)
    (node_to_com : gmap Z Z) (com_to_nodes : gmap Z (gset Z))
    : result (gmap Z Z * gmap Z (gset Z)) :=
  match lines with
  | [] => Ok (node_to_com, com_to_nodes)
  | i :: lines' =>
      let line := Py.strip i in
      if negb (String.eqb i "")
      then
        '(a, b) ← Py.split line tab ≫= Py.unpack2;
        a ← Py.int a;
        b ← Py.int b;
        let node_to_com := <[a := b]> node_to_com in
        let com_to_nodes :=
          match com_to_nodes !! b with
          | Some s => <[b := {[a]} ∪ s]> com_to_nodes
          | None => <[b := {[a]}]> com_to_nodes
          end in
        true_community_loop lines' node_to_com com_to_nodes
      else Ok (node_to_com, com_to_nodes)
  end.

Definition true_community_helper (dir : string)
    : result (gmap Z Z * gmap Z (gset Z)) :=
  true_community_loop (Py.readlines dir) ∅ ∅.

(** *** [get_true_community] *)

Definition get_true_community (node_to_com : gmap Z Z)
    (com_to_nodes : gmap Z (gset Z)) (q_node : Z) : result (gset Z) :=
  com ← getitem node_to_com q_node;
  getitem com_to_nodes com.

(** *** [LFR_error_stats] *)

(** The reading loop of [LFR_error_stats] (membership mode). *)
Fixpoint prop_com_loop (lines : list string) (prop_com : gset Z)
    : result (gset Z) :=
  match lines with
  | [] => Ok prop_com
  | i :: lines' =>
      if negb (Py.contains "-1" i)
      then
        '(a, b) ← Py.split (Py.strip i) " " ≫= Py.unpack2;
        a ← Py.int a;
        b ← Py.int b;
        let prop_com := {[a]} ∪ prop_com in
        let prop_com := {[b]} ∪ prop_com in
        prop_com_loop lines' prop_com
      else Ok prop_com
  end.

(** The proposed community a file yields: lines 74 to 84. *)
Definition read_prop_com (dir : string) : result (gset Z) :=
  prop_com_loop (Py.readlines dir) ∅.

(** Lines 86 to 102, on the set that was read. *)
Definition error_stats (prop_com true_com : gset Z) (LFR : Z)
    : result (gset Z * Qc * Qc * Qc * Z) :=
  let sym_diff := symmetric_difference true_com prop_com in
  let full_net := set_range 1 (LFR + 1) in
  let true_positive := true_com ∩ prop_com in
  let true_negative := full_net ∖ true_com ∖ prop_com in
  let false_negative := true_com ∖ prop_com in
  let false_positive := prop_com ∖ true_com in
  if len prop_com =? 0 then Ok (sym_diff, 0%Qc, 0%Qc, 0%Qc, 0)
  else
    per ← truediv 97 (Qc_of_Z (len true_positive))
                  (Qc_of_Z (len true_positive + len false_positive));
    rec ← truediv 98 (Qc_of_Z (len true_positive))
                  (Qc_of_Z (len true_positive + len false_negative));
    f1 ← truediv 100 (2 * per * rec)%Qc (per + rec)%Qc;
    Ok (sym_diff, per, rec, f1, len prop_com).

Definition LFR_error_stats (dir : string) (true_com : gset Z) (LFR : Z)
    : result (gset Z * Qc * Qc * Qc * Z) :=
  prop_com ← read_prop_com dir;
  error_stats prop_com true_com LFR.

(** The default of the keyword argument [LFR]. *)
Definition default_LFR : Z := 10000.

(** ** Auxiliary notions used to state the properties *)

(** What one line of a ground-truth file contributes: lines 39 to 43. *)
Definition truth_record (i : string) : result (Z * Z) :=
  '(a, b) ← Py.split (Py.strip i) tab ≫= Py.unpack2;
  a ← Py.int a;
  b ← Py.int b;
  Ok (a, b).

(** The (node, community) pairs [true_community_helper] goes through, in
    file order. *)
Fixpoint records (lines : list string) : result (list (Z * Z)) :=
  match lines with
  | [] => Ok []
  | i :: lines' =>
      if negb (String.eqb i "")
      then r ← truth_record i; rs ← records lines'; Ok (r :: rs)
      else Ok []
  end.

(** What one record does to the two dictionaries: lines 44 to 48. *)
Definition add_record (st : gmap Z Z * gmap Z (gset Z)) (r : Z * Z)
    : gmap Z Z * gmap Z (gset Z) :=
  let '(node_to_com, com_to_nodes) := st in
  let '(a, b) := r in
  (<[a := b]> node_to_com,
   match com_to_nodes !! b with
   | Some s => <[b := {[a]} ∪ s]> com_to_nodes
   | None => <[b := {[a]}]> com_to_nodes
   end).

(** No node is listed with two different community ids. *)
Fixpoint single_valued (recs : list (Z * Z)) : bool :=
  match recs with
  | [] => true
  | (a, b) :: recs' =>
      forallb (λ r, negb (r.1 =? a) || (r.2 =? b)) recs'
      && single_valued recs'
  end.

(** A text that is empty or ends with a newline: a whole number of lines. *)
Fixpoint complete (s : string) : bool :=
  match s with
  | EmptyString => true
  | String c s' =>
      match s' with
      | EmptyString => Ascii.eqb c Py.newline
      | _ => complete s'
      end
  end.

(** A text without a newline. *)
Fixpoint one_line (s : string) : bool :=
  match s with
  | EmptyString => true
  | String c s' => negb (Ascii.eqb c Py.newline) && one_line s'
  end.

(** The number of nodes [node_to_com] maps to [c]. *)
Definition count_nodes (node_to_com : gmap Z Z) (c : Z) : Z :=
  Z.of_nat (size (filter (λ kv, kv.2 = c) node_to_com)).

(** [c] is a key of [com_to_nodes] and [n] is in its set. *)
Definition member (com_to_nodes : gmap Z (gset Z)) (n c : Z) : Prop :=
  ∃ s, com_to_nodes !! c = Some s ∧ n ∈ s.

(** The files of the concrete scenarios. *)
Definition gt_file : string :=
  "1" +:+ tab +:+ "5" +:+ nl +:+ "2" +:+ tab +:+ "5" +:+ nl
  +:+ "3" +:+ tab +:+ "7" +:+ nl.

Definition dup_file : string :=
  "1" +:+ tab +:+ "5" +:+ nl +:+ "1" +:+ tab +:+ "7" +:+ nl.

Definition com_file : string :=
  "1 2" +:+ nl +:+ "1 3" +:+ nl +:+ "-1" +:+ nl.

Definition overlap_file : string :=
  "2 3" +:+ nl +:+ "3 4" +:+ nl +:+ "-1" +:+ nl.

Definition disjoint_file : string :=
  "4 5" +:+ nl +:+ "-1" +:+ nl.

Definition far_file : string :=
  "7 8" +:+ nl.

Definition empty_file : string :=
  "-1" +:+ nl.

(** *** The sweep of the script: lines 104 to 123

    The script reads its files by path, so it runs against a file system
    [fs], a map from paths to texts; [open] of a path that is no key is a
    [FileNotFoundError]. What the script prints is kept as the list of the
    lines printed, the text of a line ([str.format] on the metrics) being
    left to [format_line]. The plotting of lines 125 to 135 belongs to
    matplotlib and is not part of the model: [main_sweep] is the state the
    script has reached when it gets there. *)

Inductive outcome (A : Type) : Type :=
| Done (a : A)
| Failed (e : exn)
| FileNotFoundError (path : string).
Arguments Done {A} a.
Arguments Failed {A} e.
Arguments FileNotFoundError {A} path.

#[global] Instance outcome_ret : MRet outcome := λ A a, Done a.
#[global] Instance outcome_bind : MBind outcome := λ A B f m,
  match m with
  | Done a => f a
  | Failed e => Failed e
  | FileNotFoundError path => FileNotFoundError path
  end.

(** A computation of the core, run by the script. *)
Definition run {A} (m : result A) : outcome A :=
  match m with
  | Ok a => Done a
  | Raise e => Failed e
  end.

(** [open(path, "r")] and the reading of the whole text. *)
Definition open (fs : gmap string string) (path : string) : outcome string :=
  match fs !! path with
  | Some text => Done text
  | None => FileNotFoundError path
  end.




(** [n_data[n]]: the four lists kept for a query node. *)
Record series : Type := Series {
  precisions : list Qc;
  recalls : list Qc;
  f1s : list Qc;
  sizes : list (Z * Z)
}.

Definition lfr_param : string := "05".
Definition query_nodes : list Z := [9525; 9002; 8808; 6789].
Definition ks : list Z := seqZ 10 (26 - 10).

Definition true_d : string :=
  "data/LFR_10000/0." +:+ lfr_param +:+ "/community.txt".

Definition com_d (n k : Z) : string :=
  "data/com_search/LFR0" +:+ lfr_param +:+ "/" +:+ pretty n
  +:+ "/kcore_k" +:+ pretty k +:+ ".txt".

Section sweep.
Variable format_line : Z → Qc → Qc → Qc → string.
Variable fs : gmap string string.
Variables (n_t_c : gmap Z Z) (c_t_n : gmap Z (gset Z)).

(** The body of [for k in ks], lines 116 to 123, on the pair of [n_data]
    and the lines printed so far. *)
Definition sweep_step (n k : Z) (st : gmap Z series * list string)
    : outcome (gmap Z series * list string) :=
  let '(n_data, out) := st in
  let com_d := com_d n k in
  true_com ← run (get_true_community n_t_c c_t_n n);
  text ← open fs com_d;
  '(sym, per, rec, f1, prop_com_size) ←
    run (LFR_error_stats text true_com default_LFR);
  s ← run (getitem n_data n);
  let s := {| precisions := (precisions s ++ [per])%list;
              recalls := (recalls s ++ [rec])%list;
              f1s := (f1s s ++ [f1])%list;
              sizes := (sizes s ++ [(len true_com, prop_com_size)])%list |} in
  Done (<[n := s]> n_data, (out ++ [format_line k per rec f1])%list).

Fixpoint sweep_ks (n : Z) (ks : list Z) (st : gmap Z series * list string)
    : outcome (gmap Z series * list string) :=
  match ks with
  | [] => Done st
  | k :: ks' => st ← sweep_step n k st; sweep_ks n ks' st
  end.

Fixpoint sweep_nodes (nodes : list Z) (st : gmap Z series * list string)
    : outcome (gmap Z series * list string) :=
  match nodes with
  | [] => Done st
  | n :: nodes' => st ← sweep_ks n ks st; sweep_nodes nodes' st
  end.

(** One evaluation of the sweep went through. *)
Definition evaluated (n k : Z) : Prop :=
  ∃ T text res,
    get_true_community n_t_c c_t_n n = Ok T
    ∧ fs !! com_d n k = Some text
    ∧ LFR_error_stats text T default_LFR = Ok res.

(** The four lists of a query node hold [len_ks] entries each, and the
    sizes recorded are those of its true community. *)
Definition filled (n : Z) (len_ks : nat) (s : series) : Prop :=
  length (precisions s) = len_ks ∧ length (recalls s) = len_ks
  ∧ length (f1s s) = len_ks ∧ length (sizes s) = len_ks
  ∧ ∀ T, get_true_community n_t_c c_t_n n = Ok T →
         Forall (λ p, p.1 = len T ∧ 0 ≤ p.2) (sizes s).

End sweep.

(** Lines 105 to 123. *)
Definition main_sweep (format_line : Z → Qc → Qc → Qc → string)
    (fs : gmap string string) : outcome (gmap Z series * list string) :=
  text ← open fs true_d;
  '(n_t_c, c_t_n) ← run (true_community_helper text);
  let n_data : gmap Z series :=
    list_to_map ((λ n, (n, Series [] [] [] [])) <$> query_nodes) in
  sweep_nodes format_line fs n_t_c c_t_n query_nodes (n_data, []).

(** No line of [lines] is a sentinel. *)
Definition no_sentinel (lines : list string) : bool :=
  forallb (λ l, negb (Py.contains "-1" l)) lines.

(** The integer a field stands for, 0 where [int] rejects it. *)
Definition int_or_0 (s : string) : Z :=
  match Py.int s with
  | Ok z => z
  | Raise _ => 0
  end.

Definition space_file : string :=
  "1" +:+ tab +:+ "5" +:+ nl +:+ "2 5" +:+ nl.

Definition moved_file : string :=
  "1" +:+ tab +:+ "5" +:+ nl +:+ "2" +:+ tab +:+ "5" +:+ nl
  +:+ "1" +:+ tab +:+ "7" +:+ nl.

(** A file system on which the sweep completes: the four query nodes in
    one community, and the same proposal for every node and [k]. *)
Definition sweep_truth : string :=
  "9525" +:+ tab +:+ "1" +:+ nl +:+ "9002" +:+ tab +:+ "1" +:+ nl
  +:+ "8808" +:+ tab +:+ "1" +:+ nl +:+ "6789" +:+ tab +:+ "1" +:+ nl.

Definition sweep_com : string :=
  "9525 9002" +:+ nl +:+ "-1" +:+ nl.

Definition sweep_fs : gmap string string :=
  list_to_map
    ((true_d, sweep_truth)
     :: (n ← query_nodes; k ← ks; [(com_d n k, sweep_com)])).

Definition blank_file : string :=
  "1 2" +:+ nl +:+ " " +:+ nl +:+ "3 4" +:+ nl.

(** ** Proof steps shared below *)

(** Unfold the error monad. *)
Ltac unbind :=
  unfold mbind, result_bind, mret, result_ret in *; simpl in *.

(** Case analysis on the computation a bind is waiting for. *)
Ltac case_bind :=
  match goal with
  | |- context [match ?m with Ok _ => _ | Raise _ => _ end] =>
      lazymatch m with
      | context [match _ with Ok _ => _ | Raise _ => _ end] => fail
      | _ =>
          first [ destruct m as [[? ?]|?] eqn:?
                | destruct m as [?|?] eqn:? ];
          simpl; try done
      end
  end.

(** Equality of two closed rationals. *)
Ltac Qc_compute := apply Qc_is_canon; vm_compute; reflexivity.

(** * Properties *)

(** ** Facts about the string built-ins *)

#[local] Arguments Ascii.eqb : simpl never.
#[local] Arguments String.eqb : simpl never.

Example readlines_sample :
  Py.readlines ("a" +:+ nl +:+ nl +:+ "b") = ["a" +:+ nl; nl; "b"].
Proof. reflexivity. Qed.

Example strip_sample : Py.strip (" 1" +:+ tab +:+ "5 " +:+ nl) = "1" +:+ tab +:+ "5".
Proof. reflexivity. Qed.

Example split_samples :
  Py.split "1 2" " " = Ok ["1"; "2"]
  ∧ Py.split "1  2" " " = Ok ["1"; ""; "2"]
  ∧ Py.split "" " " = Ok [""]
  ∧ Py.split "aXXXb" "XX" = Ok ["a"; "Xb"]
  ∧ Py.split "1 2" "" = Raise ValueError.
Proof. by repeat split. Qed.

Example int_samples :
  Py.int " 12 " = Ok 12 ∧ Py.int "-3" = Ok (-3) ∧ Py.int "+07" = Ok 7
  ∧ Py.int "1_000" = Ok 1000 ∧ Py.int "1__0" = Raise ValueError
  ∧ Py.int "_1" = Raise ValueError ∧ Py.int "- 1" = Raise ValueError
  ∧ Py.int "" = Raise ValueError ∧ Py.int "1 2" = Raise ValueError.
Proof. by repeat split. Qed.

Example contains_samples :
  Py.contains "-1" "10-15" = true ∧ Py.contains "-1" "- 1" = false.
Proof. by split. Qed.

Lemma readlines_nil s : Py.readlines s = [] → s = EmptyString.
Proof.
  destruct s as [|c s]; [done|]. simpl.
  destruct (Ascii.eqb c Py.newline); [done|].
  by destruct (Py.readlines s).
Qed.

(** No line that [readlines] returns is the empty string. *)
Lemma readlines_nonempty s : Forall (λ l, l ≠ EmptyString) (Py.readlines s).
Proof.
  induction s as [|c s IH]; simpl; [constructor|].
  destruct (Ascii.eqb c Py.newline); [by constructor|].
  destruct (Py.readlines s) as [|l ls]; [by repeat constructor|].
  inversion_clear IH. by constructor.
Qed.

Lemma readlines_app pre t :
  complete pre = true →
  Py.readlines (pre +:+ t) = (Py.readlines pre ++ Py.readlines t)%list.
Proof.
  induction pre as [|c pre IH]; [done|]. intros Hc.
  change (String c pre +:+ t) with (String c (pre +:+ t)).
  cbn [Py.readlines].
  destruct (Ascii.eqb c Py.newline) eqn:Ec.
  - destruct pre as [|d pre]; [done|]. by rewrite IH.
  - destruct pre as [|d pre]; [simpl in Hc; congruence|].
    rewrite IH by done.
    destruct (Py.readlines (String d pre)) as [|l ls] eqn:El; [|done].
    by apply readlines_nil in El.
Qed.

Lemma readlines_one_line s rest :
  one_line s = true →
  Py.readlines (s +:+ nl +:+ rest) = (s +:+ nl) :: Py.readlines rest.
Proof.
  induction s as [|c s IH]; [done|]. simpl. intros [Hc Hs]%andb_true_iff.
  apply negb_true_iff in Hc. rewrite Hc.
  change (s +:+ String Py.newline rest) with (s +:+ nl +:+ rest).
  by rewrite IH.
Qed.

Lemma readlines_last_line s :
  one_line s = true → s ≠ EmptyString → Py.readlines s = [s].
Proof.
  induction s as [|c s IH]; [done|]. simpl. intros [Hc Hs]%andb_true_iff _.
  apply negb_true_iff in Hc. rewrite Hc.
  destruct s as [|d s]; [done|]. by rewrite IH.
Qed.

Lemma contains_cons sub c s :
  Py.contains sub (String c s)
  = Py.startswith (String c s) sub || Py.contains sub s.
Proof. done. Qed.

Lemma startswith_app sub s t :
  Py.startswith s sub = true → Py.startswith (s +:+ t) sub = true.
Proof.
  revert s. induction sub as [|a sub IH]; intros s; [done|].
  destruct s as [|c s]; simpl; [done|].
  intros [-> H]%andb_true_iff. by rewrite IH.
Qed.

Lemma contains_app sub s t :
  Py.contains sub s = true → Py.contains sub (s +:+ t) = true.
Proof.
  induction s as [|c s IH].
  - simpl. rewrite orb_false_r. intros H. destruct sub; [|done].
    by destruct t.
  - change (String c s +:+ t) with (String c (s +:+ t)).
    rewrite !contains_cons. intros [H|H]%orb_true_iff.
    + apply orb_true_iff. left. apply (startswith_app _ (String c s) t H).
    + rewrite (IH H). apply orb_true_r.
Qed.

Lemma startswith1_rstrip s :
  Py.startswith (Py.rstrip_with Py.isspace s) "1" = Py.startswith s "1".
Proof.
  destruct s as [|d s]; [done|]. cbn [Py.rstrip_with].
  destruct (Py.rstrip_with Py.isspace s); [|done].
  destruct (Py.isspace d) eqn:Ed; [|done]. simpl.
  destruct (Ascii.eqb_spec "1" d) as [<-|]; [|done]. by vm_compute in Ed.
Qed.

Lemma contains_rstrip s :
  Py.contains "-1" (Py.rstrip_with Py.isspace s) = Py.contains "-1" s.
Proof.
  induction s as [|c s IH]; [done|]. rewrite contains_cons.
  assert (Hp : Py.startswith (String c s) "-1"
               = Py.startswith (String c (Py.rstrip_with Py.isspace s)) "-1").
  { change (Py.startswith (String c ?x) "-1")
      with (Ascii.eqb "-" c && Py.startswith x "1").
    by rewrite startswith1_rstrip. }
  rewrite Hp, <- IH. cbn [Py.rstrip_with].
  destruct (Py.rstrip_with Py.isspace s) as [|d r]; [|done].
  destruct (Py.isspace c); simpl; by rewrite ?andb_false_r.
Qed.

Lemma contains_lstrip s :
  Py.contains "-1" (Py.lstrip_with Py.isspace s) = Py.contains "-1" s.
Proof.
  induction s as [|c s IH]; [done|]. cbn [Py.lstrip_with].
  destruct (Py.isspace c) eqn:Ec; [|done].
  rewrite IH, contains_cons.
  assert (Py.startswith (String c s) "-1" = false) as ->; [|done].
  simpl. destruct (Ascii.eqb_spec "-" c) as [<-|]; [|done].
  by vm_compute in Ec.
Qed.

(** Stripping neither hides nor creates the sentinel marker. *)
Lemma contains_strip s : Py.contains "-1" (Py.strip s) = Py.contains "-1" s.
Proof. unfold Py.strip. by rewrite contains_rstrip, contains_lstrip. Qed.

(** ** The reading loops *)

Lemma prop_com_loop_sentinel before s after acc :
  Py.contains "-1" s = true →
  prop_com_loop (before ++ s :: after) acc = prop_com_loop before acc.
Proof.
  intros Hs. revert acc.
  induction before as [|i before IH]; intros acc; simpl.
  - by rewrite Hs.
  - destruct (negb (Py.contains "-1" i)); [|done]. unbind.
    by repeat case_bind.
Qed.

Lemma graph_size_loop_sentinel split before s after nodes edges :
  Py.contains "-1" s = true →
  graph_size_loop split (before ++ s :: after) nodes edges
  = graph_size_loop split before nodes edges.
Proof.
  intros Hs. revert nodes edges.
  induction before as [|i before IH]; intros nodes edges; simpl.
  - by rewrite contains_strip, Hs.
  - destruct (_ && _); [|done]. unbind.
    by repeat case_bind.
Qed.

(** [true_community_helper] never leaves its loop on a blank line: it
    raises there, or before. *)
Lemma true_community_loop_blank lines n2c c2n :
  Forall (λ l, l ≠ EmptyString) lines →
  Exists (λ i, Py.strip i = EmptyString) lines →
  raises (true_community_loop lines n2c c2n) = true.
Proof.
  intros Hne Hex. revert n2c c2n.
  induction Hex as [i lines Hi|i lines Hex IH]; intros n2c c2n;
    inversion_clear Hne as [|?? Hi' Hne']; simpl;
    apply String.eqb_neq in Hi'; rewrite Hi'; simpl.
  - by rewrite Hi.
  - unbind. repeat case_bind. by apply IH.
Qed.

Lemma blank_line_raises dir :
  Exists (λ i, Py.strip i = EmptyString) (Py.readlines dir) →
  raises (true_community_helper dir) = true.
Proof. apply true_community_loop_blank, readlines_nonempty. Qed.

(** ** The ground-truth index *)

(** The loop is a left fold of [add_record] over the records of the file. *)
Lemma true_community_loop_records lines st :
  true_community_loop lines st.1 st.2
  = recs ← records lines; Ok (foldl add_record st recs).
Proof.
  revert st. induction lines as [|i lines IH]; intros [n2c c2n]; [done|].
  simpl. destruct (negb (String.eqb i EmptyString)); [|done].
  unfold truth_record. unbind. repeat case_bind; apply (IH (_, _)).
Qed.

Lemma true_community_helper_records dir n2c c2n :
  true_community_helper dir = Ok (n2c, c2n) →
  ∃ recs, records (Py.readlines dir) = Ok recs
          ∧ foldl add_record (∅, ∅) recs = (n2c, c2n).
Proof.
  unfold true_community_helper.
  pose proof (true_community_loop_records (Py.readlines dir) (∅, ∅)) as H.
  simpl in H. rewrite H. unbind.
  destruct (records _) as [recs|]; [|done]. intros [= H']. by exists recs.
Qed.

Section index.
Implicit Types (recs : list (Z * Z)) (n c : Z).

(** The sets of [com_to_nodes] hold exactly the listed pairs. *)
Lemma index_member recs n c :
  member (foldl add_record (∅, ∅) recs).2 n c ↔ (n, c) ∈ recs.
Proof.
  unfold member. induction recs as [|[a b] recs IH] using rev_ind.
  - simpl. split; [intros (s & Hs & _); by rewrite lookup_empty in Hs|].
    by intros ?%elem_of_nil.
  - rewrite foldl_snoc, elem_of_app, list_elem_of_singleton, <- IH.
    destruct (foldl add_record (∅, ∅) recs) as [n2c c2n]. simpl.
    destruct (decide (c = b)) as [->|Hc].
    + destruct (c2n !! b) as [s|] eqn:Hb; rewrite lookup_insert_eq.
      * split.
        -- intros (s' & [= <-] & [->%elem_of_singleton|Hn]%elem_of_union);
             eauto.
        -- intros [(s' & [= <-] & Hn)|[= ->]]; eexists; split; eauto;
             apply elem_of_union; [by right|left; by apply elem_of_singleton].
      * split.
        -- intros (s' & [= <-] & ->%elem_of_singleton). eauto.
        -- intros [(s' & [=] & _)|[= ->]]. eexists; split; eauto.
           by apply elem_of_singleton.
    + assert (Hne : ∀ v, <[b:=v]> c2n !! c = c2n !! c)
        by (intros; by apply lookup_insert_ne).
      destruct (c2n !! b); rewrite Hne;
        (split; [by left|intros [?|[= _ ?]]; [done|congruence]]).
Qed.

(** [node_to_com] maps a node to a community it was listed with. *)
Lemma index_lookup recs n c :
  (foldl add_record (∅, ∅) recs).1 !! n = Some c → (n, c) ∈ recs.
Proof.
  revert c. induction recs as [|[a b] recs IH] using rev_ind; intros c.
  - simpl. by rewrite lookup_empty.
  - rewrite foldl_snoc, elem_of_app, list_elem_of_singleton.
    destruct (foldl add_record (∅, ∅) recs) as [n2c c2n]. simpl in *.
    destruct (decide (a = n)) as [->|Ha].
    + rewrite lookup_insert_eq. intros [= ->]. by right.
    + rewrite lookup_insert_ne by done. auto.
Qed.

(** Every listed node is a key of [node_to_com]. *)
Lemma index_seen recs n :
  n ∈ recs.*1 ↔ is_Some ((foldl add_record (∅, ∅) recs).1 !! n).
Proof.
  induction recs as [|[a b] recs IH] using rev_ind.
  - simpl. rewrite lookup_empty, elem_of_nil. split; [done|].
    by intros [? ?].
  - rewrite foldl_snoc, fmap_app, elem_of_app. cbn [fmap list_fmap fst].
    rewrite list_elem_of_singleton, IH.
    destruct (foldl add_record (∅, ∅) recs) as [n2c c2n]. simpl.
    destruct (decide (a = n)) as [->|Ha].
    + rewrite lookup_insert_eq. split; eauto.
    + rewrite lookup_insert_ne by done.
      split; [intros [?|?]; [done|congruence]|by left].
Qed.

Lemma single_valued_spec recs n c c' :
  single_valued recs = true → (n, c) ∈ recs → (n, c') ∈ recs → c = c'.
Proof.
  induction recs as [|[a b] recs IH]; simpl; [by intros _ ?%elem_of_nil|].
  intros [Hall Hsv]%andb_true_iff. rewrite forallb_forall in Hall.
  assert (Hab : ∀ d, (a, d) ∈ recs → d = b).
  { intros d Hd%list_elem_of_In. apply Hall in Hd. simpl in Hd. lia. }
  rewrite !elem_of_cons.
  intros [[= -> ->]|H1] [[= ->]|H2]; auto.
  - subst. symmetry. auto.
  - subst. auto.
Qed.

(** With one community per node, the two dictionaries agree. *)
Lemma index_consistent recs n c :
  single_valued recs = true →
  member (foldl add_record (∅, ∅) recs).2 n c
  ↔ (foldl add_record (∅, ∅) recs).1 !! n = Some c.
Proof.
  intros Hsv. rewrite index_member. split; [|apply index_lookup].
  intros Hnc.
  assert (Hn : n ∈ recs.*1) by (apply list_elem_of_fmap; by exists (n, c)).
  apply index_seen in Hn as [c' Hc'].
  rewrite Hc'. f_equal. apply index_lookup in Hc'.
  eapply single_valued_spec; eauto.
Qed.
End index.

(** ** The metric engine *)

Lemma len_nonneg `{Countable A} (s : gset A) : 0 ≤ len s.
Proof. unfold len. lia. Qed.

Lemma len_zero `{Countable A} (s : gset A) : len s = 0 ↔ s = ∅.
Proof.
  unfold len. rewrite <- (leibniz_equiv_iff s ∅), <- size_empty_iff. lia.
Qed.

Lemma len_pos `{Countable A} (s : gset A) : s ≠ ∅ → 0 < len s.
Proof. intros Hs. pose proof (len_nonneg s). rewrite <- len_zero in Hs. lia. Qed.

Lemma Qc_of_Z_pos n : 0 < n → (0 < Qc_of_Z n)%Qc.
Proof. intros Hn. rewrite <- Z2Qc_inj_0. by apply (Z2Qc_inj_lt 0 n). Qed.

Lemma truediv_zero lineno x :
  truediv lineno x 0%Qc = Raise (ZeroDivisionError lineno).
Proof. unfold truediv. by case_decide. Qed.

Lemma truediv_nonzero lineno x y :
  y ≠ 0%Qc → truediv lineno x y = Ok (x / y)%Qc.
Proof. unfold truediv. by case_decide. Qed.

Lemma truediv_pos lineno x y :
  (0 < y)%Qc → truediv lineno x y = Ok (x / y)%Qc.
Proof. intros Hy. apply truediv_nonzero. symmetry. by apply Qclt_not_eq. Qed.

Lemma Qcdiv_pos x y : (0 < x)%Qc → (0 < y)%Qc → (0 < x / y)%Qc.
Proof. intros. apply Qcmult_pos_pos; [done|by apply Qcinv_pos]. Qed.

Lemma Qcdiv_0_l y : (0 / y)%Qc = 0%Qc.
Proof. apply Qcmult_0_l. Qed.

Lemma Qcdiv_diag x : (0 < x)%Qc → (x / x)%Qc = 1%Qc.
Proof. intros Hx. apply Qcmult_inv_r. symmetry. by apply Qclt_not_eq. Qed.

Lemma LFR_error_stats_read dir P T LFR :
  read_prop_com dir = Ok P → LFR_error_stats dir T LFR = error_stats P T LFR.
Proof. unfold LFR_error_stats. by intros ->. Qed.

(** The guard of line 94. *)
Lemma error_stats_empty T LFR :
  error_stats ∅ T LFR = Ok (T, 0%Qc, 0%Qc, 0%Qc, 0).
Proof.
  unfold error_stats, symmetric_difference. simpl.
  do 2 f_equal. repeat f_equal. set_solver.
Qed.

(** When nothing of the proposal is in the true set, a division has a zero
    divisor: that of line 98 when the true set is empty, that of line 100
    otherwise. *)
Lemma error_stats_disjoint P T LFR :
  P ≠ ∅ → T ∩ P = ∅ →
  error_stats P T LFR
  = Raise (ZeroDivisionError (if decide (T = ∅) then 98 else 100)).
Proof.
  intros HP HTP. unfold error_stats.
  destruct (Z.eqb_spec (len P) 0) as [HP0|_]; [by apply len_zero in HP0|].
  rewrite HTP. change (len (∅ : gset Z)) with 0. rewrite !Z.add_0_l.
  assert (P ∖ T = P) as -> by set_solver.
  assert (T ∖ P = T) as -> by set_solver.
  rewrite Z2Qc_inj_0,
    (truediv_pos 97 _ _ (Qc_of_Z_pos _ (len_pos P HP))).
  unfold mbind, result_bind. rewrite Qcdiv_0_l.
  case_decide as HT.
  - subst T. change (len (∅ : gset Z)) with 0.
    by rewrite Z2Qc_inj_0, truediv_zero.
  - rewrite (truediv_pos 98 _ _ (Qc_of_Z_pos _ (len_pos T HT))).
    by rewrite Qcdiv_0_l, Qcplus_0_r, truediv_zero.
Qed.

(** When the two sets meet, all three divisions go through. *)
Lemma error_stats_overlap P T LFR :
  T ∩ P ≠ ∅ →
  let per := (Qc_of_Z (len (T ∩ P)) / Qc_of_Z (len (T ∩ P) + len (P ∖ T)))%Qc in
  let rec := (Qc_of_Z (len (T ∩ P)) / Qc_of_Z (len (T ∩ P) + len (T ∖ P)))%Qc in
  error_stats P T LFR
  = Ok (symmetric_difference T P, per, rec,
        (2 * per * rec / (per + rec))%Qc, len P).
Proof.
  intros HTP per rec. unfold error_stats.
  destruct (Z.eqb_spec (len P) 0) as [HP0|_].
  { apply len_zero in HP0. set_solver. }
  pose proof (len_pos _ HTP) as Htp.
  pose proof (len_nonneg (P ∖ T)). pose proof (len_nonneg (T ∖ P)).
  assert (Hper : (0 < per)%Qc)
    by (apply Qcdiv_pos; apply Qc_of_Z_pos; lia).
  assert (Hrec : (0 < rec)%Qc)
    by (apply Qcdiv_pos; apply Qc_of_Z_pos; lia).
  rewrite !truediv_pos by (apply Qc_of_Z_pos; lia). unbind.
  fold per rec. by rewrite truediv_pos by by apply Qcplus_pos_pos.
Qed.

(** Equality of two results, component by component. *)
Lemma stats_eq (s s' : gset Z) (p p' r r' f f' : Qc) (n n' : Z) :
  s = s' → p = p' → r = r' → f = f' → n = n' →
  Ok (s, p, r, f, n) = Ok (s', p', r', f', n').
Proof. by intros -> -> -> -> ->. Qed.

(** ** The claims *)

(** C1 (the code departs from the claim). The ground-truth file of the
    scenario, the lines [1<TAB>5], [2<TAB>5], [3<TAB>7] followed by a blank
    line, does not yield an index: line 40 tests the raw line [i], which
    still holds its newline, so the blank line reaches the unpacking of line
    41 and [true_community_helper] raises [ValueError]. *)
Theorem C1_blank_line_raises :
  true_community_helper (gt_file +:+ nl) = Raise ValueError.
Proof. vm_compute. reflexivity. Qed.

(** Without the blank line the scenario is as the specification has it:
    reading stops at the end of the file. *)
Lemma ground_truth_scenario_at_eof :
  ∃ n2c c2n,
    true_community_helper gt_file = Ok (n2c, c2n)
    ∧ get_true_community n2c c2n 1 = Ok {[1; 2]}
    ∧ get_true_community n2c c2n 3 = Ok {[3]}.
Proof. do 2 eexists. split; [vm_compute; reflexivity|]. by vm_compute. Qed.

Lemma disjoint_sets_raise dir P T LFR :
  read_prop_com dir = Ok P → P ≠ ∅ → T ∩ P = ∅ →
  LFR_error_stats dir T LFR
  = Raise (ZeroDivisionError (if decide (T = ∅) then 98 else 100)).
Proof.
  intros Hr HP HTP. rewrite (LFR_error_stats_read _ _ _ _ Hr).
  by apply error_stats_disjoint.
Qed.

(** C2 (the code departs from the claim). For the proposed set [{4, 5}] and
    the true set [{1, 2, 3}], both non-empty and disjoint, [LFR_error_stats]
    does not return three zeros: the F1 division of line 100 has the divisor
    [0 + 0] and raises [ZeroDivisionError]. *)
Theorem C2_disjoint_sets_raise :
  read_prop_com disjoint_file = Ok {[4; 5]}
  ∧ LFR_error_stats disjoint_file {[1; 2; 3]} default_LFR
    = Raise (ZeroDivisionError 100).
Proof.
  assert (Hr : read_prop_com disjoint_file = Ok {[4; 5]})
    by (vm_compute; reflexivity).
  split; [done|].
  rewrite (disjoint_sets_raise _ {[4; 5]} _ _ Hr); [|set_solver..].
  case_decide as HT; [|done].
  assert (H1 : (1 : Z) ∈ ({[1; 2; 3]} : gset Z)) by set_solver.
  rewrite HT in H1. by apply not_elem_of_empty in H1.
Qed.

(** C3. For every true set [T] and every file whose membership set is
    empty, [LFR_error_stats] returns exactly [(T, 0, 0, 0, 0)]: the symmetric
    difference is [T], the three metrics and the proposed size are 0, and
    nothing is raised. *)
Theorem C3_empty_proposal dir T LFR :
  read_prop_com dir = Ok ∅ →
  LFR_error_stats dir T LFR = Ok (T, 0%Qc, 0%Qc, 0%Qc, 0).
Proof.
  intros Hr. rewrite (LFR_error_stats_read _ _ _ _ Hr).
  apply error_stats_empty.
Qed.

Lemma C3_empty_proposal_witness :
  read_prop_com empty_file = Ok ∅
  ∧ LFR_error_stats empty_file {[1; 2]} default_LFR
    = Ok ({[1; 2]}, 0%Qc, 0%Qc, 0%Qc, 0).
Proof.
  assert (Hr : read_prop_com empty_file = Ok ∅) by (vm_compute; reflexivity).
  split; [exact Hr|]. apply (C3_empty_proposal empty_file {[1; 2]} _ Hr).
Defined.

(** C4. For every file whose membership set [P] is non-empty and the empty
    true set, [LFR_error_stats] fails with [ZeroDivisionError], and it is the
    recall division that fails: the exception is raised on line 98, whose
    divisor [|TP| + |FN| = |T|] is 0 and is not guarded; the precision
    division of line 97 has gone through before. *)
Theorem C4_empty_true_set dir P LFR :
  read_prop_com dir = Ok P → P ≠ ∅ →
  LFR_error_stats dir ∅ LFR = Raise (ZeroDivisionError 98).
Proof.
  intros Hr HP.
  rewrite (disjoint_sets_raise _ _ _ _ Hr HP); [|set_solver].
  by case_decide.
Qed.

Lemma C4_empty_true_set_witness :
  read_prop_com com_file = Ok {[1; 2; 3]}
  ∧ ({[1; 2; 3]} : gset Z) ≠ ∅
  ∧ LFR_error_stats com_file ∅ default_LFR = Raise (ZeroDivisionError 98).
Proof.
  assert (Hr : read_prop_com com_file = Ok {[1; 2; 3]})
    by (vm_compute; reflexivity).
  assert (Hne : ({[1; 2; 3]} : gset Z) ≠ ∅)
    by (apply (bool_decide_unpack _); vm_compute; exact I).
  split; [exact Hr|]. split; [exact Hne|].
  exact (C4_empty_true_set com_file {[1; 2; 3]} default_LFR Hr Hne).
Defined.

(** A node that is no key of [node_to_com] is a [KeyError], whatever the
    two dictionaries hold. *)
Lemma get_true_community_missing (node_to_com : gmap Z Z)
    (com_to_nodes : gmap Z (gset Z)) q :
  node_to_com !! q = None →
  get_true_community node_to_com com_to_nodes q = Raise KeyError.
Proof. unfold get_true_community, getitem. by intros ->. Qed.

(** C5. On the index built from a ground-truth file, a query node that was
    never seen makes [get_true_community] fail with [KeyError], a
    [LookupError], and not return an empty community; a node that was seen
    gets the whole node set of its community id, the nodes listed with that
    id. *)
Theorem C5_get_true_community dir node_to_com com_to_nodes :
  true_community_helper dir = Ok (node_to_com, com_to_nodes) →
  ∃ recs, records (Py.readlines dir) = Ok recs ∧
    ∀ q,
      (q ∉ recs.*1 →
         get_true_community node_to_com com_to_nodes q = Raise KeyError
         ∧ is_LookupError KeyError = true
         ∧ get_true_community node_to_com com_to_nodes q ≠ Ok ∅)
      ∧ (q ∈ recs.*1 →
         ∃ c s, node_to_com !! q = Some c
                ∧ get_true_community node_to_com com_to_nodes q = Ok s
                ∧ ∀ n, n ∈ s ↔ (n, c) ∈ recs).
Proof.
  intros (recs & Hrecs & Hfold)%true_community_helper_records.
  exists recs. split; [done|]. intros q.
  pose proof (index_seen recs q) as Hseen.
  pose proof (λ c, index_lookup recs q c) as Hlook.
  pose proof (λ n c, index_member recs n c) as Hmem.
  rewrite Hfold in Hseen, Hlook, Hmem. simpl in *. split.
  - intros Hq. assert (Hnone : node_to_com !! q = None).
    { apply eq_None_not_Some. by rewrite <- Hseen. }
    rewrite (get_true_community_missing _ _ _ Hnone). by repeat split.
  - intros [c Hc]%Hseen. pose proof (Hlook c Hc) as Hqc.
    apply Hmem in Hqc as (s & Hs & Hqs). exists c, s.
    split; [done|]. split.
    + unfold get_true_community, getitem. rewrite Hc. simpl. by rewrite Hs.
    + intros n. rewrite <- Hmem. unfold member. split; [by eauto|].
      intros (s' & Hs' & Hn). congruence.
Qed.

Lemma C5_get_true_community_witness :
  true_community_helper gt_file
  = Ok (list_to_map [(1, 5); (2, 5); (3, 7)],
        list_to_map [(5, {[1; 2]}); (7, {[3]})])
  ∧ ∃ recs, records (Py.readlines gt_file) = Ok recs ∧
      ∀ q,
        (q ∉ recs.*1 →
           get_true_community (list_to_map [(1, 5); (2, 5); (3, 7)])
             (list_to_map [(5, {[1; 2]}); (7, {[3]})]) q = Raise KeyError
           ∧ is_LookupError KeyError = true
           ∧ get_true_community (list_to_map [(1, 5); (2, 5); (3, 7)])
               (list_to_map [(5, {[1; 2]}); (7, {[3]})]) q ≠ Ok ∅)
        ∧ (q ∈ recs.*1 →
           ∃ c s,
             (list_to_map [(1, 5); (2, 5); (3, 7)] : gmap Z Z) !! q = Some c
             ∧ get_true_community (list_to_map [(1, 5); (2, 5); (3, 7)])
                 (list_to_map [(5, {[1; 2]}); (7, {[3]})]) q = Ok s
             ∧ ∀ n, n ∈ s ↔ (n, c) ∈ recs).
Proof.
  assert (H : true_community_helper gt_file
              = Ok (list_to_map [(1, 5); (2, 5); (3, 7)],
                    list_to_map [(5, {[1; 2]}); (7, {[3]})]))
    by (vm_compute; reflexivity).
  split; [exact H|]. exact (C5_get_true_community gt_file _ _ H).
Defined.

(** C6, as the code has it. For every accepted ground-truth file that lists
    no node under two different community ids: [n] is in [com_to_nodes[c]]
    if and only if [node_to_com[n] == c], and for every key [c] the size of
    [com_to_nodes[c]] is the number of nodes [node_to_com] maps to [c] (no
    node is mapped to an id that is not a key). *)
Theorem C6_index_invariant dir node_to_com com_to_nodes recs :
  true_community_helper dir = Ok (node_to_com, com_to_nodes) →
  records (Py.readlines dir) = Ok recs →
  single_valued recs = true →
  (∀ n c, member com_to_nodes n c ↔ node_to_com !! n = Some c)
  ∧ (∀ c s, com_to_nodes !! c = Some s → len s = count_nodes node_to_com c)
  ∧ (∀ c, com_to_nodes !! c = None → count_nodes node_to_com c = 0).
Proof.
  intros (recs' & Hrecs' & Hfold)%true_community_helper_records Hrecs Hsv.
  assert (recs' = recs) as -> by congruence.
  assert (Hiff : ∀ n c, member com_to_nodes n c ↔ node_to_com !! n = Some c).
  { intros n c. pose proof (index_consistent recs n c Hsv) as H.
    by rewrite Hfold in H. }
  split; [done|]. split.
  - intros c s Hs. unfold count_nodes, len. f_equal.
    rewrite <- (size_dom (D := gset Z)). f_equal. apply set_eq. intros n.
    rewrite elem_of_dom. unfold is_Some.
    setoid_rewrite map_lookup_filter_Some. simpl. split.
    + intros Hn. exists c. split; [|done]. apply Hiff. by exists s.
    + intros (c' & [(s' & Hs' & Hn)%Hiff ->]). congruence.
  - intros c Hc. unfold count_nodes.
    assert (filter (λ kv : Z * Z, kv.2 = c) node_to_com = ∅) as ->; [|done].
    apply map_empty. intros n. apply map_lookup_filter_None. right.
    intros c' Hn Hc'. simpl in Hc'. subst c'.
    apply Hiff in Hn as (s & Hs & _). congruence.
Qed.

Lemma C6_index_invariant_witness :
  true_community_helper gt_file
  = Ok (list_to_map [(1, 5); (2, 5); (3, 7)],
        list_to_map [(5, {[1; 2]}); (7, {[3]})])
  ∧ records (Py.readlines gt_file) = Ok [(1, 5); (2, 5); (3, 7)]
  ∧ single_valued [(1, 5); (2, 5); (3, 7)] = true
  ∧ ∀ n c,
      member (list_to_map [(5, {[1; 2]}); (7, {[3]})]) n c
      ↔ (list_to_map [(1, 5); (2, 5); (3, 7)] : gmap Z Z) !! n = Some c.
Proof.
  assert (H : true_community_helper gt_file
              = Ok (list_to_map [(1, 5); (2, 5); (3, 7)],
                    list_to_map [(5, {[1; 2]}); (7, {[3]})]))
    by (vm_compute; reflexivity).
  assert (Hrecs : records (Py.readlines gt_file)
                  = Ok [(1, 5); (2, 5); (3, 7)])
    by (vm_compute; reflexivity).
  assert (Hsv : single_valued [(1, 5); (2, 5); (3, 7)] = true)
    by reflexivity.
  split; [exact H|]. split; [exact Hrecs|]. split; [exact Hsv|].
  exact (proj1 (C6_index_invariant gt_file _ _ _ H Hrecs Hsv)).
Defined.

(** C6 as stated fails on a file that lists node 1 under community 5 and
    then under community 7: node 1 stays in [com_to_nodes[5]] while
    [node_to_com[1]] is 7. *)
Lemma C6_counterexample :
  true_community_helper dup_file
  = Ok ({[1 := 7]}, list_to_map [(5, {[1]}); (7, {[1]})])
  ∧ ¬ (∀ n c,
         member (list_to_map [(5, {[1]}); (7, {[1]})]) n c
         ↔ ({[1 := 7]} : gmap Z Z) !! n = Some c).
Proof.
  split; [vm_compute; reflexivity|]. intros H.
  destruct (H 1 5) as [H15 _].
  assert (Hm : member (list_to_map [(5, {[1]}); (7, {[1]})]) 1 5).
  { exists {[1]}. split; [vm_compute; reflexivity|]. by apply elem_of_singleton. }
  apply H15 in Hm. vm_compute in Hm. discriminate Hm.
Qed.

(** C7, as the code has it. For every file whose membership set equals the
    true set [T], with [T] non-empty, [LFR_error_stats] returns precision 1,
    recall 1, F1 1 and an empty symmetric difference. *)
Theorem C7_identical_sets dir T LFR :
  read_prop_com dir = Ok T → T ≠ ∅ →
  LFR_error_stats dir T LFR = Ok (∅, 1%Qc, 1%Qc, 1%Qc, len T).
Proof.
  intros Hr HT. rewrite (LFR_error_stats_read _ _ _ _ Hr).
  assert (HTT : T ∩ T ≠ ∅) by set_solver.
  rewrite (error_stats_overlap T T LFR HTT). cbv zeta.
  assert (T ∩ T = T) as -> by set_solver.
  assert (T ∖ T = ∅) as -> by set_solver.
  change (len (∅ : gset Z)) with 0. rewrite Z.add_0_r.
  rewrite (Qcdiv_diag _ (Qc_of_Z_pos _ (len_pos T HT))).
  apply stats_eq; try done.
  - unfold symmetric_difference. set_solver.
  - Qc_compute.
Qed.

Lemma C7_identical_sets_witness :
  read_prop_com com_file = Ok {[1; 2; 3]}
  ∧ ({[1; 2; 3]} : gset Z) ≠ ∅
  ∧ LFR_error_stats com_file {[1; 2; 3]} default_LFR
    = Ok (∅, 1%Qc, 1%Qc, 1%Qc, len ({[1; 2; 3]} : gset Z)).
Proof.
  assert (Hr : read_prop_com com_file = Ok {[1; 2; 3]})
    by (vm_compute; reflexivity).
  assert (Hne : ({[1; 2; 3]} : gset Z) ≠ ∅)
    by (apply (bool_decide_unpack _); vm_compute; exact I).
  split; [exact Hr|]. split; [exact Hne|].
  exact (C7_identical_sets com_file {[1; 2; 3]} default_LFR Hr Hne).
Defined.

(** C7 as stated fails when both sets are empty: the file that holds only
    the sentinel yields the empty membership set, and against the empty true
    set the guard of line 94 returns precision 0, not 1. *)
Lemma C7_counterexample :
  read_prop_com empty_file = Ok ∅
  ∧ ¬ (∃ sym_diff size,
         LFR_error_stats empty_file ∅ default_LFR
         = Ok (sym_diff, 1%Qc, 1%Qc, 1%Qc, size)).
Proof.
  assert (Hr : read_prop_com empty_file = Ok ∅) by (vm_compute; reflexivity).
  split; [exact Hr|]. intros (sym_diff & size & H).
  rewrite (LFR_error_stats_read _ _ _ _ Hr), error_stats_empty in H.
  injection H as _ H _. discriminate H.
Qed.

(** C8, as the code has it. For every proposed set [P] and true set [T]
    that have a node in common, [LFR_error_stats] returns precision
    [|T ∩ P| / (|T ∩ P| + |P − T|)], recall [|T ∩ P| / (|T ∩ P| + |T − P|)]
    and their harmonic mean as F1; for [T = {1, 2, 3}] and a file yielding
    [P = {2, 3, 4}], with universe size 10, it returns precision 2/3,
    recall 2/3, F1 2/3 and the symmetric difference [{1, 4}]. *)
Theorem C8_precision_recall :
  (∀ dir P T LFR,
     read_prop_com dir = Ok P → T ∩ P ≠ ∅ →
     let per :=
       (Qc_of_Z (len (T ∩ P)) / Qc_of_Z (len (T ∩ P) + len (P ∖ T)))%Qc in
     let rec :=
       (Qc_of_Z (len (T ∩ P)) / Qc_of_Z (len (T ∩ P) + len (T ∖ P)))%Qc in
     LFR_error_stats dir T LFR
     = Ok (symmetric_difference T P, per, rec,
           (2 * per * rec / (per + rec))%Qc, len P))
  ∧ read_prop_com overlap_file = Ok {[2; 3; 4]}
  ∧ LFR_error_stats overlap_file {[1; 2; 3]} 10
    = Ok ({[1; 4]}, (Qc_of_Z 2 / Qc_of_Z 3)%Qc, (Qc_of_Z 2 / Qc_of_Z 3)%Qc,
          (Qc_of_Z 2 / Qc_of_Z 3)%Qc, 3).
Proof.
  assert (Hr : read_prop_com overlap_file = Ok {[2; 3; 4]})
    by (vm_compute; reflexivity).
  split; [|split; [exact Hr|]].
  - intros dir P T LFR Hdir HTP. rewrite (LFR_error_stats_read _ _ _ _ Hdir).
    by apply error_stats_overlap.
  - rewrite (LFR_error_stats_read _ _ _ _ Hr), error_stats_overlap.
    + apply stats_eq; try Qc_compute; by vm_compute.
    + apply (bool_decide_unpack _). vm_compute. exact I.
Qed.

Lemma C8_precision_recall_witness :
  read_prop_com com_file = Ok {[1; 2; 3]}
  ∧ ({[3; 4]} : gset Z) ∩ {[1; 2; 3]} ≠ ∅
  ∧ ∃ f1,
      LFR_error_stats com_file {[3; 4]} default_LFR
      = Ok ({[1; 2; 4]}, (Qc_of_Z 1 / Qc_of_Z 3)%Qc,
            (Qc_of_Z 1 / Qc_of_Z 2)%Qc, f1, 3).
Proof.
  assert (Hr : read_prop_com com_file = Ok {[1; 2; 3]})
    by (vm_compute; reflexivity).
  assert (Hne : ({[3; 4]} : gset Z) ∩ {[1; 2; 3]} ≠ ∅)
    by (apply (bool_decide_unpack _); vm_compute; exact I).
  split; [exact Hr|]. split; [exact Hne|]. eexists.
  rewrite (proj1 C8_precision_recall com_file {[1; 2; 3]} {[3; 4]}
             default_LFR Hr Hne).
  apply stats_eq; [by vm_compute|Qc_compute|Qc_compute|reflexivity|done].
Defined.

(** C8 as stated fails for the empty true set: the file yields the
    non-empty [P = {7, 8}], and against [T = ∅] no tuple is returned, the
    recall division of line 98 raising [ZeroDivisionError]. *)
Lemma C8_counterexample :
  read_prop_com far_file = Ok {[7; 8]}
  ∧ LFR_error_stats far_file ∅ 10 = Raise (ZeroDivisionError 98)
  ∧ ∀ r, LFR_error_stats far_file ∅ 10 ≠ Ok r.
Proof.
  assert (Hr : read_prop_com far_file = Ok {[7; 8]})
    by (vm_compute; reflexivity).
  assert (H : LFR_error_stats far_file ∅ 10 = Raise (ZeroDivisionError 98)).
  { rewrite (disjoint_sets_raise _ _ _ _ Hr); [by case_decide| |];
      set_solver. }
  split; [exact Hr|]. split; [exact H|]. intros r. by rewrite H.
Qed.

(** C9. Both read modes stop at a sentinel line, a line that contains
    ["-1"], and read nothing after it: the result is that of the text before
    the sentinel, whatever follows. For the file with the lines [1 2],
    [1 3], [-1], membership mode yields [{1, 2, 3}] and size mode returns
    [(3, 2)]. *)
Theorem C9_sentinel_stops_reading :
  (∀ pre s rest split,
     complete pre = true → one_line s = true → Py.contains "-1" s = true →
     read_prop_com (pre +:+ s +:+ nl +:+ rest) = read_prop_com pre
     ∧ graph_size_from_file (pre +:+ s +:+ nl +:+ rest) split
       = graph_size_from_file pre split
     ∧ read_prop_com (pre +:+ s) = read_prop_com pre
     ∧ graph_size_from_file (pre +:+ s) split
       = graph_size_from_file pre split)
  ∧ read_prop_com com_file = Ok {[1; 2; 3]}
  ∧ graph_size_from_file com_file default_split = Ok (3, 2).
Proof.
  split; [|split; vm_compute; reflexivity].
  intros pre s rest split Hpre Hs Hm.
  unfold read_prop_com, graph_size_from_file.
  rewrite !(readlines_app _ _ Hpre), (readlines_one_line _ _ Hs).
  rewrite (readlines_last_line s Hs) by (by intros ->).
  rewrite !prop_com_loop_sentinel, !graph_size_loop_sentinel;
    first [done|by apply contains_app].
Qed.

Lemma C9_sentinel_stops_reading_witness :
  complete ("1 2" +:+ nl) = true
  ∧ one_line "x-1y" = true
  ∧ Py.contains "-1" "x-1y" = true
  ∧ read_prop_com (("1 2" +:+ nl) +:+ "x-1y" +:+ nl +:+ "3 4" +:+ nl)
    = read_prop_com ("1 2" +:+ nl)
  ∧ graph_size_from_file
      (("1 2" +:+ nl) +:+ "x-1y" +:+ nl +:+ "3 4" +:+ nl) default_split
    = graph_size_from_file ("1 2" +:+ nl) default_split.
Proof.
  do 3 (split; [reflexivity|]).
  pose proof (proj1 C9_sentinel_stops_reading ("1 2" +:+ nl) "x-1y"
                ("3 4" +:+ nl) default_split eq_refl eq_refl eq_refl)
    as (H1 & H2 & _).
  split; [exact H1|exact H2].
Defined.

(** C10. The tuple [LFR_error_stats] returns does not depend on the
    universe size: for every file, true set and two universe sizes the
    results (symmetric difference, precision, recall, F1, proposed size, or
    the exception raised) are the same; the true-negative set is computed
    and enters no returned component. *)
Theorem C10_universe_size_irrelevant dir T LFR1 LFR2 :
  LFR_error_stats dir T LFR1 = LFR_error_stats dir T LFR2.
Proof.
  unfold LFR_error_stats. unfold mbind, result_bind.
  destruct (read_prop_com dir) as [P|e]; reflexivity.
Qed.

(** * Further properties of the code *)

(** ** Blank lines, missing delimiters and the exceptions raised *)

Lemma rstrip_app_nl sp s :
  sp Py.newline = true →
  Py.rstrip_with sp (s +:+ nl) = Py.rstrip_with sp s.
Proof.
  intros Hsp. induction s as [|c s IH]; simpl; [by rewrite Hsp|].
  change (s +:+ String Py.newline EmptyString) with (s +:+ nl).
  by rewrite IH.
Qed.

(** The newline [readlines] leaves on a line does not survive [strip]. *)
Lemma strip_app_nl s : Py.strip (s +:+ nl) = Py.strip s.
Proof.
  unfold Py.strip. induction s as [|c s IH]; [done|].
  change (String c s +:+ nl) with (String c (s +:+ nl)).
  cbn [Py.lstrip_with]. destruct (Py.isspace c); [done|].
  by apply (rstrip_app_nl Py.isspace (String c s)).
Qed.

Lemma contains_blank s :
  Py.strip s = EmptyString → Py.contains "-1" s = false.
Proof. intros Hs. by rewrite <- contains_strip, Hs. Qed.

(** A string without the separator splits into itself alone. *)
Lemma split_go_no_sep sep s :
  Py.contains sep s = false → Py.split_go sep 0 s = [s].
Proof.
  induction s as [|c s IH]; [done|]. rewrite contains_cons.
  intros [Hp Hs]%orb_false_iff. cbn [Py.split_go]. rewrite Hp.
  by rewrite (IH Hs).
Qed.

Lemma unpack2_raise {A} (xs : list A) e :
  Py.unpack2 xs = Raise e → e = ValueError.
Proof. destruct xs as [|a [|b [|c xs]]]; simpl; congruence. Qed.

Lemma split_raise s sep e : Py.split s sep = Raise e → e = ValueError.
Proof. destruct sep; simpl; congruence. Qed.

Lemma int_raise s e : Py.int s = Raise e → e = ValueError.
Proof.
  unfold Py.int.
  match goal with
  | |- context [let '(_, _) := ?x in _] => destruct x as [neg body]
  end.
  destruct (Py.digits 0 false body); congruence.
Qed.

Lemma truediv_raise lineno x y e :
  truediv lineno x y = Raise e → e = ZeroDivisionError lineno.
Proof. unfold truediv. case_decide; congruence. Qed.

(** The exception a failed step of a reading loop carries. *)
Ltac raise_cases :=
  let H := fresh in
  intros H; try (injection H as <-);
  eauto using unpack2_raise, split_raise, int_raise, truediv_raise.



Lemma prop_com_loop_raise lines acc e :
  prop_com_loop lines acc = Raise e → e = ValueError.
Proof.
  revert acc. induction lines as [|i lines IH]; intros acc; simpl; [done|].
  destruct (negb _); [|done]. unbind. repeat case_bind; raise_cases.
Qed.


Lemma graph_size_loop_blank split before s after nodes edges :
  Py.strip s = EmptyString →
  graph_size_loop split (before ++ s :: after) nodes edges
  = graph_size_loop split before nodes edges.
Proof.
  intros Hs. revert nodes edges.
  induction before as [|i before IH]; intros nodes edges; simpl.
  - by rewrite Hs.
  - destruct (_ && _); [|done]. unbind. by repeat case_bind.
Qed.

Lemma prop_com_loop_blank before s after acc :
  no_sentinel before = true → Py.strip s = EmptyString →
  prop_com_loop (before ++ s :: after) acc = Raise ValueError.
Proof.
  intros Hb Hs. revert acc Hb.
  induction before as [|i before IH]; intros acc; simpl.
  - intros _. by rewrite (contains_blank _ Hs), Hs.
  - intros [-> Hb]%andb_true_iff. unbind.
    repeat case_bind;
      first [by apply IH
            | f_equal; eauto using unpack2_raise, split_raise, int_raise].
Qed.

Lemma true_community_loop_no_tab lines n2c c2n :
  Forall (λ l, l ≠ EmptyString) lines →
  existsb (λ i, negb (Py.contains tab (Py.strip i))) lines = true →
  true_community_loop lines n2c c2n = Raise ValueError.
Proof.
  intros Hne. revert n2c c2n.
  induction Hne as [|i lines Hi Hne IH]; intros n2c c2n; simpl; [done|].
  apply String.eqb_neq in Hi. rewrite Hi. simpl.
  intros [Ht|Hex]%orb_true_iff.
  - apply negb_true_iff in Ht. by rewrite (split_go_no_sep _ _ Ht).
  - unbind.
    repeat case_bind;
      first [by apply IH
            | f_equal; eauto using unpack2_raise, split_raise, int_raise].
Qed.

(** X1. Size mode stops at a line that is blank once stripped, as it does
    at a sentinel: the result is that of the text before it, whatever
    follows. *)
Theorem X1_size_mode_stops_at_blank_line pre ws rest split :
  complete pre = true → one_line ws = true → Py.strip ws = EmptyString →
  graph_size_from_file (pre +:+ ws +:+ nl +:+ rest) split
  = graph_size_from_file pre split.
Proof.
  intros Hpre Hws Hb. unfold graph_size_from_file.
  rewrite (readlines_app _ _ Hpre), (readlines_one_line _ _ Hws).
  rewrite graph_size_loop_blank; [done|]. by rewrite strip_app_nl.
Qed.

Lemma X1_size_mode_stops_at_blank_line_witness :
  complete ("1 2" +:+ nl) = true
  ∧ one_line " " = true
  ∧ Py.strip " " = EmptyString
  ∧ graph_size_from_file blank_file default_split
    = graph_size_from_file ("1 2" +:+ nl) default_split.
Proof.
  do 3 (split; [reflexivity|]).
  exact (X1_size_mode_stops_at_blank_line ("1 2" +:+ nl) " " ("3 4" +:+ nl)
           default_split eq_refl eq_refl eq_refl).
Defined.

(** X2. Membership mode does not stop at a blank line: when no sentinel
    line comes before it, the blank line fails to unpack into two fields and
    [ValueError] is raised, whatever the lines before and after hold. *)
Theorem X2_membership_mode_raises_at_blank_line pre ws rest :
  complete pre = true → one_line ws = true → Py.strip ws = EmptyString →
  no_sentinel (Py.readlines pre) = true →
  read_prop_com (pre +:+ ws +:+ nl +:+ rest) = Raise ValueError.
Proof.
  intros Hpre Hws Hb Hns. unfold read_prop_com.
  rewrite (readlines_app _ _ Hpre), (readlines_one_line _ _ Hws).
  apply prop_com_loop_blank; [done|]. by rewrite strip_app_nl.
Qed.

Lemma X2_membership_mode_raises_at_blank_line_witness :
  complete ("1 2" +:+ nl) = true
  ∧ one_line " " = true
  ∧ Py.strip " " = EmptyString
  ∧ no_sentinel (Py.readlines ("1 2" +:+ nl)) = true
  ∧ read_prop_com blank_file = Raise ValueError.
Proof.
  do 4 (split; [reflexivity|]).
  exact (X2_membership_mode_raises_at_blank_line ("1 2" +:+ nl) " "
           ("3 4" +:+ nl) eq_refl eq_refl eq_refl eq_refl).
Defined.


(** ** More on the ground-truth index *)

Lemma records_length lines recs :
  Forall (λ l, l ≠ EmptyString) lines →
  records lines = Ok recs → length recs = length lines.
Proof.
  intros Hne. revert recs.
  induction Hne as [|i lines Hi Hne IH]; intros recs; simpl.
  - by intros [= <-].
  - apply String.eqb_neq in Hi. rewrite Hi. simpl. unbind.
    destruct (truth_record i); [|done].
    destruct (records lines) as [rs|]; [|done].
    intros [= <-]. simpl. f_equal. by apply IH.
Qed.

Section index_shape.
Implicit Types (recs : list (Z * Z)) (n c : Z).

(** No set of [com_to_nodes] is empty. *)
Lemma index_nonempty recs c s :
  (foldl add_record (∅, ∅) recs).2 !! c = Some s → s ≠ ∅.
Proof.
  revert s. induction recs as [|[a b] recs IH] using rev_ind; intros s.
  - simpl. by rewrite lookup_empty.
  - rewrite foldl_snoc.
    destruct (foldl add_record (∅, ∅) recs) as [n2c c2n]. simpl in *.
    destruct (decide (c = b)) as [->|Hc].
    + destruct (c2n !! b); rewrite lookup_insert_eq; intros [= <-];
        apply (non_empty_inhabited_L a); set_solver.
    + destruct (c2n !! b); rewrite lookup_insert_ne by done; apply IH.
Qed.

(** The last line that lists a node decides its [node_to_com] entry. *)
Lemma index_last l1 n c l2 :
  n ∉ l2.*1 →
  (foldl add_record (∅, ∅) (l1 ++ (n, c) :: l2)%list).1 !! n = Some c.
Proof.
  induction l2 as [|[a b] l2 IH] using rev_ind; intros Hn.
  - rewrite foldl_snoc.
    destruct (foldl add_record (∅, ∅) l1) as [n2c c2n]. simpl.
    apply lookup_insert_eq.
  - rewrite fmap_app, not_elem_of_app in Hn. destruct Hn as [Hn Ha].
    cbn [fmap list_fmap fst] in Ha. rewrite list_elem_of_singleton in Ha.
    rewrite app_comm_cons, app_assoc, foldl_snoc.
    destruct (foldl add_record (∅, ∅) (l1 ++ (n, c) :: l2)%list)
      as [n2c c2n].
    simpl in *. rewrite lookup_insert_ne by done. by apply IH.
Qed.

End index_shape.

(** X4. Every line of a ground-truth file must hold a tab once stripped:
    the first line that does not makes [true_community_helper] raise
    [ValueError], if no line before it did; in particular no line ends the
    reading early. *)
Theorem X4_line_without_tab_raises dir :
  existsb (λ i, negb (Py.contains tab (Py.strip i))) (Py.readlines dir) = true →
  true_community_helper dir = Raise ValueError.
Proof. apply true_community_loop_no_tab, readlines_nonempty. Qed.

Lemma X4_line_without_tab_raises_witness :
  existsb (λ i, negb (Py.contains tab (Py.strip i))) (Py.readlines space_file)
  = true
  ∧ true_community_helper space_file = Raise ValueError.
Proof.
  split; [reflexivity|].
  exact (X4_line_without_tab_raises space_file eq_refl).
Defined.

(** X5. When [true_community_helper] returns, every line of the file was
    read as a record: there are as many records as lines, the keys of
    [node_to_com] are the nodes listed and the keys of [com_to_nodes] the
    community ids listed. *)
Theorem X5_every_line_is_a_record dir node_to_com com_to_nodes :
  true_community_helper dir = Ok (node_to_com, com_to_nodes) →
  ∃ recs,
    records (Py.readlines dir) = Ok recs
    ∧ length recs = length (Py.readlines dir)
    ∧ dom node_to_com = list_to_set recs.*1
    ∧ dom com_to_nodes = list_to_set recs.*2.
Proof.
  intros (recs & Hrecs & Hfold)%true_community_helper_records.
  exists recs. split; [done|]. split.
  { eapply records_length; [apply readlines_nonempty|done]. }
  pose proof (index_seen recs) as Hseen.
  pose proof (index_member recs) as Hmem.
  pose proof (index_nonempty recs) as Hne.
  rewrite Hfold in Hseen, Hmem, Hne. simpl in *. split.
  - apply set_eq. intros n.
    by rewrite elem_of_dom, elem_of_list_to_set, Hseen.
  - apply set_eq. intros c.
    rewrite elem_of_dom, elem_of_list_to_set, list_elem_of_fmap. split.
    + intros [s Hs]. destruct (set_choose_L s (Hne c s Hs)) as [n Hn].
      exists (n, c). split; [done|]. apply Hmem. by exists s.
    + intros ([n c'] & -> & (s & Hs & _)%Hmem). by exists s.
Qed.

Lemma X5_every_line_is_a_record_witness :
  true_community_helper gt_file
  = Ok (list_to_map [(1, 5); (2, 5); (3, 7)],
        list_to_map [(5, {[1; 2]}); (7, {[3]})])
  ∧ ∃ recs,
      records (Py.readlines gt_file) = Ok recs
      ∧ length recs = length (Py.readlines gt_file)
      ∧ dom (list_to_map [(1, 5); (2, 5); (3, 7)] : gmap Z Z)
        = list_to_set recs.*1
      ∧ dom (list_to_map [(5, {[1; 2]}); (7, {[3]})] : gmap Z (gset Z))
        = list_to_set recs.*2.
Proof.
  assert (H : true_community_helper gt_file
              = Ok (list_to_map [(1, 5); (2, 5); (3, 7)],
                    list_to_map [(5, {[1; 2]}); (7, {[3]})]))
    by (vm_compute; reflexivity).
  split; [exact H|]. exact (X5_every_line_is_a_record gt_file _ _ H).
Defined.

(** X6. Whatever the file lists, on the index [true_community_helper]
    returns every node is in the set of the community it is mapped to, no
    set is empty or holds a node that is no key of [node_to_com], and
    [get_true_community] of a key returns a set that holds the key. *)
Theorem X6_index_shape dir node_to_com com_to_nodes :
  true_community_helper dir = Ok (node_to_com, com_to_nodes) →
  (∀ n c, node_to_com !! n = Some c → member com_to_nodes n c)
  ∧ (∀ c s, com_to_nodes !! c = Some s → s ≠ ∅ ∧ s ⊆ dom node_to_com)
  ∧ (∀ q, q ∈ dom node_to_com →
          ∃ s, get_true_community node_to_com com_to_nodes q = Ok s ∧ q ∈ s).
Proof.
  intros (recs & Hrecs & Hfold)%true_community_helper_records.
  pose proof (index_seen recs) as Hseen.
  pose proof (index_member recs) as Hmem.
  pose proof (index_lookup recs) as Hlook.
  pose proof (index_nonempty recs) as Hne.
  rewrite Hfold in Hseen, Hmem, Hne, Hlook. simpl in *.
  assert (Hfwd : ∀ n c, node_to_com !! n = Some c → member com_to_nodes n c).
  { intros n c Hn. by apply Hmem, Hlook. }
  split; [done|]. split.
  - intros c s Hs. split; [by eapply Hne|]. intros n Hn.
    apply elem_of_dom, Hseen, list_elem_of_fmap. exists (n, c).
    split; [done|]. apply Hmem. by exists s.
  - intros q [c Hc]%elem_of_dom. destruct (Hfwd q c Hc) as (s & Hs & Hq).
    exists s. split; [|done].
    unfold get_true_community, getitem. rewrite Hc. simpl. by rewrite Hs.
Qed.

Lemma X6_index_shape_witness :
  true_community_helper dup_file
  = Ok ({[1 := 7]}, list_to_map [(5, {[1]}); (7, {[1]})])
  ∧ ∀ q, q ∈ dom ({[1 := 7]} : gmap Z Z) →
         ∃ s, get_true_community {[1 := 7]}
                (list_to_map [(5, {[1]}); (7, {[1]})]) q = Ok s ∧ q ∈ s.
Proof.
  assert (H : true_community_helper dup_file
              = Ok ({[1 := 7]}, list_to_map [(5, {[1]}); (7, {[1]})]))
    by (vm_compute; reflexivity).
  split; [exact H|]. exact (proj2 (proj2 (X6_index_shape dup_file _ _ H))).
Defined.

(** X7. When a node is listed more than once, [node_to_com] keeps the
    community of the last line that lists it, and the node stays in the set
    of every community an earlier line listed it with. *)
Theorem X7_last_listing_wins dir node_to_com com_to_nodes l1 n c l2 :
  true_community_helper dir = Ok (node_to_com, com_to_nodes) →
  records (Py.readlines dir) = Ok (l1 ++ (n, c) :: l2)%list →
  n ∉ l2.*1 →
  node_to_com !! n = Some c
  ∧ ∀ c', (n, c') ∈ l1 → member com_to_nodes n c'.
Proof.
  intros (recs & Hrecs & Hfold)%true_community_helper_records Hrecs' Hn.
  assert (recs = (l1 ++ (n, c) :: l2)%list) as -> by congruence.
  pose proof (index_last l1 n c l2 Hn) as Hlast.
  pose proof (index_member (l1 ++ (n, c) :: l2)%list n) as Hmem.
  rewrite Hfold in Hlast, Hmem. simpl in *. split; [done|].
  intros c' Hc'. apply Hmem, elem_of_app. by left.
Qed.

Lemma X7_last_listing_wins_witness :
  true_community_helper moved_file
  = Ok (list_to_map [(1, 7); (2, 5)],
        list_to_map [(5, {[1; 2]}); (7, {[1]})])
  ∧ records (Py.readlines moved_file)
    = Ok ([(1, 5); (2, 5)] ++ (1, 7) :: [])%list
  ∧ (1 ∉ ([] : list (Z * Z)).*1)
  ∧ (list_to_map [(1, 7); (2, 5)] : gmap Z Z) !! 1 = Some 7
  ∧ ∀ c', (1, c') ∈ [(1, 5); (2, 5)] →
          member (list_to_map [(5, {[1; 2]}); (7, {[1]})]) 1 c'.
Proof.
  assert (H : true_community_helper moved_file
              = Ok (list_to_map [(1, 7); (2, 5)],
                    list_to_map [(5, {[1; 2]}); (7, {[1]})]))
    by (vm_compute; reflexivity).
  assert (Hrecs : records (Py.readlines moved_file)
                  = Ok ([(1, 5); (2, 5)] ++ (1, 7) :: [])%list)
    by (vm_compute; reflexivity).
  assert (Hn : 1 ∉ ([] : list (Z * Z)).*1) by apply not_elem_of_nil.
  split; [exact H|]. split; [exact Hrecs|]. split; [exact Hn|].
  exact (X7_last_listing_wins moved_file _ _ _ 1 7 _ H Hrecs Hn).
Defined.

(** X8. On the index of a file that lists no node under two community
    ids, the true communities partition the nodes: the communities of two
    query nodes are the same set or have no node in common, and one query
    node is in the community of the other exactly when the two communities
    are the same. *)
Theorem X8_true_communities_partition
    dir node_to_com com_to_nodes recs q1 q2 s1 s2 :
  true_community_helper dir = Ok (node_to_com, com_to_nodes) →
  records (Py.readlines dir) = Ok recs →
  single_valued recs = true →
  get_true_community node_to_com com_to_nodes q1 = Ok s1 →
  get_true_community node_to_com com_to_nodes q2 = Ok s2 →
  (q2 ∈ s1 ↔ s1 = s2) ∧ (s1 = s2 ∨ s1 ## s2).
Proof.
  intros (recs' & Hrecs' & Hfold)%true_community_helper_records Hrecs Hsv.
  assert (recs' = recs) as -> by congruence.
  assert (Hiff : ∀ n c, member com_to_nodes n c ↔ node_to_com !! n = Some c).
  { intros n c. pose proof (index_consistent recs n c Hsv) as H.
    by rewrite Hfold in H. }
  unfold get_true_community, getitem, mbind, result_bind.
  destruct (node_to_com !! q1) as [c1|] eqn:H1; [|done].
  destruct (com_to_nodes !! c1) as [t1|] eqn:Ht1; [|done]. intros [= ->].
  destruct (node_to_com !! q2) as [c2|] eqn:H2; [|done].
  destruct (com_to_nodes !! c2) as [t2|] eqn:Ht2; [|done]. intros [= ->].
  assert (Hq2 : q2 ∈ s2).
  { apply Hiff in H2 as (s & Hs & Hq). congruence. }
  split.
  - split; [|by intros ->]. intros Hq.
    assert (node_to_com !! q2 = Some c1) by (apply Hiff; by exists s1).
    congruence.
  - destruct (decide (c1 = c2)) as [->|Hc]; [left; congruence|right].
    intros n Hn1 Hn2.
    assert (node_to_com !! n = Some c1) by (apply Hiff; by exists s1).
    assert (node_to_com !! n = Some c2) by (apply Hiff; by exists s2).
    congruence.
Qed.

Lemma X8_true_communities_partition_witness :
  true_community_helper gt_file
  = Ok (list_to_map [(1, 5); (2, 5); (3, 7)],
        list_to_map [(5, {[1; 2]}); (7, {[3]})])
  ∧ records (Py.readlines gt_file) = Ok [(1, 5); (2, 5); (3, 7)]
  ∧ single_valued [(1, 5); (2, 5); (3, 7)] = true
  ∧ get_true_community (list_to_map [(1, 5); (2, 5); (3, 7)])
      (list_to_map [(5, {[1; 2]}); (7, {[3]})]) 1 = Ok {[1; 2]}
  ∧ get_true_community (list_to_map [(1, 5); (2, 5); (3, 7)])
      (list_to_map [(5, {[1; 2]}); (7, {[3]})]) 3 = Ok {[3]}
  ∧ ((3 ∈ ({[1; 2]} : gset Z) ↔ ({[1; 2]} : gset Z) = {[3]})
     ∧ (({[1; 2]} : gset Z) = {[3]} ∨ ({[1; 2]} : gset Z) ## {[3]})).
Proof.
  assert (H : true_community_helper gt_file
              = Ok (list_to_map [(1, 5); (2, 5); (3, 7)],
                    list_to_map [(5, {[1; 2]}); (7, {[3]})]))
    by (vm_compute; reflexivity).
  assert (Hrecs : records (Py.readlines gt_file)
                  = Ok [(1, 5); (2, 5); (3, 7)])
    by (vm_compute; reflexivity).
  assert (Hsv : single_valued [(1, 5); (2, 5); (3, 7)] = true)
    by reflexivity.
  assert (H1 : get_true_community (list_to_map [(1, 5); (2, 5); (3, 7)])
                 (list_to_map [(5, {[1; 2]}); (7, {[3]})]) 1 = Ok {[1; 2]})
    by (vm_compute; reflexivity).
  assert (H3 : get_true_community (list_to_map [(1, 5); (2, 5); (3, 7)])
                 (list_to_map [(5, {[1; 2]}); (7, {[3]})]) 3 = Ok {[3]})
    by (vm_compute; reflexivity).
  do 5 (split; [assumption|]).
  exact (X8_true_communities_partition gt_file _ _ _ 1 3 _ _
           H Hrecs Hsv H1 H3).
Defined.

(** ** More on the metric engine *)

Lemma len_true_positive_false_positive (P T : gset Z) :
  len (T ∩ P) + len (P ∖ T) = len P.
Proof.
  unfold len. rewrite <- Nat2Z.inj_add, <- size_union by set_solver.
  do 2 f_equal. apply set_eq. intros x.
  destruct (decide (x ∈ T)); set_solver.
Qed.

Lemma len_true_positive_false_negative (P T : gset Z) :
  len (T ∩ P) + len (T ∖ P) = len T.
Proof.
  unfold len. rewrite <- Nat2Z.inj_add, <- size_union by set_solver.
  do 2 f_equal. apply set_eq. intros x.
  destruct (decide (x ∈ P)); set_solver.
Qed.

Lemma Qc_harmonic a n m :
  (0 < a)%Qc → (0 < n)%Qc → (0 < m)%Qc →
  (2 * (a / n) * (a / m) / (a / n + a / m))%Qc = (2 * a / (n + m))%Qc.
Proof.
  intros Ha Hn Hm.
  assert (a ≠ 0%Qc) by (symmetry; by apply Qclt_not_eq).
  assert (n ≠ 0%Qc) by (symmetry; by apply Qclt_not_eq).
  assert (m ≠ 0%Qc) by (symmetry; by apply Qclt_not_eq).
  assert (n + m ≠ 0)%Qc
    by (symmetry; by apply Qclt_not_eq, Qcplus_pos_pos).
  field. repeat split; try done.
  rewrite Qcplus_comm.
  assert (a * n + a * m = a * (n + m))%Qc as -> by ring.
  intros Hz. apply Qcmult_integral in Hz. tauto.
Qed.

Lemma Qc_of_Z_div_bounds x y :
  0 < x → x ≤ y → (0 < Qc_of_Z x / Qc_of_Z y)%Qc ∧ (Qc_of_Z x / Qc_of_Z y ≤ 1)%Qc.
Proof.
  intros Hx Hxy.
  assert (Hy : (0 < Qc_of_Z y)%Qc) by (apply Qc_of_Z_pos; lia).
  split; [apply Qcdiv_pos; [by apply Qc_of_Z_pos|done]|].
  apply (Qcmult_le_mono_pos_r _ _ (Qc_of_Z y) Hy).
  unfold Qcdiv. rewrite <- Qcmult_assoc, Qcmult_inv_l, Qcmult_1_r, Qcmult_1_l.
  - by apply (Z2Qc_inj_le x y).
  - symmetry. by apply Qclt_not_eq.
Qed.

Lemma Qc_of_Z_div_one x y :
  0 < y → (Qc_of_Z x / Qc_of_Z y)%Qc = 1%Qc ↔ x = y.
Proof.
  intros Hy. assert (Hy' : (0 < Qc_of_Z y)%Qc) by by apply Qc_of_Z_pos.
  split; [|intros ->; by apply Qcdiv_diag].
  intros H. apply Z2Qc_inj.
  rewrite <- (Qcmult_1_l (Qc_of_Z y)), <- H.
  unfold Qcdiv. rewrite <- Qcmult_assoc, Qcmult_inv_l, Qcmult_1_r; [done|].
  symmetry. by apply Qclt_not_eq.
Qed.

(** The tuple returned when the two sets meet, with the divisors summed
    up: [|TP| + |FP| = |P|] and [|TP| + |FN| = |T|]. *)
Lemma error_stats_closed P T LFR :
  T ∩ P ≠ ∅ →
  error_stats P T LFR
  = Ok (symmetric_difference T P,
        (Qc_of_Z (len (T ∩ P)) / Qc_of_Z (len P))%Qc,
        (Qc_of_Z (len (T ∩ P)) / Qc_of_Z (len T))%Qc,
        (Qc_of_Z (2 * len (T ∩ P)) / Qc_of_Z (len P + len T))%Qc,
        len P).
Proof.
  intros HTP. rewrite (error_stats_overlap P T LFR HTP). cbv zeta.
  rewrite len_true_positive_false_positive, len_true_positive_false_negative.
  pose proof (len_pos _ HTP) as Ha.
  pose proof (len_true_positive_false_positive P T).
  pose proof (len_true_positive_false_negative P T).
  pose proof (len_nonneg (P ∖ T)). pose proof (len_nonneg (T ∖ P)).
  apply stats_eq; try done.
  rewrite Qc_harmonic by (apply Qc_of_Z_pos; lia).
  by rewrite Z2Qc_inj_mul, Z2Qc_inj_add, Z2Qc_inj_2.
Qed.

(** The two ways [error_stats] returns. *)
Lemma error_stats_ok P T LFR res :
  error_stats P T LFR = Ok res →
  (P = ∅ ∧ res = (T, 0%Qc, 0%Qc, 0%Qc, 0))
  ∨ (T ∩ P ≠ ∅
     ∧ res = (symmetric_difference T P,
              (Qc_of_Z (len (T ∩ P)) / Qc_of_Z (len P))%Qc,
              (Qc_of_Z (len (T ∩ P)) / Qc_of_Z (len T))%Qc,
              (Qc_of_Z (2 * len (T ∩ P)) / Qc_of_Z (len P + len T))%Qc,
              len P)).
Proof.
  destruct (decide (P = ∅)) as [->|HP].
  { rewrite error_stats_empty. intros [= <-]. by left. }
  destruct (decide (T ∩ P = ∅)) as [HTP|HTP].
  { by rewrite (error_stats_disjoint P T LFR HP HTP). }
  rewrite (error_stats_closed P T LFR HTP). intros [= <-]. by right.
Qed.

Lemma LFR_error_stats_ok dir T LFR res :
  LFR_error_stats dir T LFR = Ok res →
  ∃ P, read_prop_com dir = Ok P ∧ error_stats P T LFR = Ok res.
Proof.
  unfold LFR_error_stats, mbind, result_bind.
  destruct (read_prop_com dir) as [P|]; [|done]. eauto.
Qed.

Lemma symmetric_difference_empty (P T : gset Z) :
  symmetric_difference T P = ∅ ↔ P = T.
Proof.
  unfold symmetric_difference. split; [|intros ->; set_solver].
  intros H. apply set_eq. intros x.
  assert (Hx : x ∉ T ∖ P ∪ P ∖ T) by (rewrite H; set_solver).
  destruct (decide (x ∈ T)), (decide (x ∈ P)); set_solver.
Qed.

(** Split a conjunction of equivalences into its implications. *)
Ltac split_iffs :=
  repeat match goal with
         | |- _ ∧ _ => split
         | |- _ ↔ _ => split
         end.

(** X9. [LFR_error_stats] returns a tuple exactly when the file is read
    and the proposed set is empty or has a node in common with the true set;
    a non-empty proposed set without a common node is a
    [ZeroDivisionError], of line 98 when the true set is empty and of line
    100 otherwise, and a file that cannot be read a [ValueError]. *)
Theorem X9_when_LFR_error_stats_returns dir T LFR :
  ((∃ res, LFR_error_stats dir T LFR = Ok res)
   ↔ ∃ P, read_prop_com dir = Ok P ∧ (P = ∅ ∨ T ∩ P ≠ ∅))
  ∧ ((∃ lineno, LFR_error_stats dir T LFR = Raise (ZeroDivisionError lineno))
     ↔ ∃ P, read_prop_com dir = Ok P ∧ P ≠ ∅ ∧ T ∩ P = ∅)
  ∧ (LFR_error_stats dir T LFR = Raise (ZeroDivisionError 98)
     ↔ ∃ P, read_prop_com dir = Ok P ∧ P ≠ ∅ ∧ T = ∅)
  ∧ (LFR_error_stats dir T LFR = Raise (ZeroDivisionError 100)
     ↔ ∃ P, read_prop_com dir = Ok P ∧ P ≠ ∅ ∧ T ≠ ∅ ∧ T ∩ P = ∅)
  ∧ (LFR_error_stats dir T LFR = Raise ValueError
     ↔ read_prop_com dir = Raise ValueError).
Proof.
  unfold LFR_error_stats, mbind, result_bind.
  destruct (read_prop_com dir) as [P|e] eqn:Hr.
  - destruct (decide (P = ∅)) as [->|HP];
      [|destruct (decide (T ∩ P = ∅)) as [HTP|HTP]].
    + rewrite error_stats_empty. split_iffs; naive_solver.
    + rewrite (error_stats_disjoint P T LFR HP HTP).
      split_iffs; case_decide; naive_solver set_solver.
    + rewrite (error_stats_closed P T LFR HTP).
      split_iffs; naive_solver set_solver.
  - assert (e = ValueError) as -> by by eapply prop_com_loop_raise.
    split_iffs; naive_solver.
Qed.

(** X10. When the proposed set [P] and the true set [T] have a node in
    common, the divisor of the precision is the size of [P] and that of the
    recall the size of [T]: [LFR_error_stats] returns precision
    [|T ∩ P| / |P|], recall [|T ∩ P| / |T|], the F1 of line 100 computed from
    these two, the symmetric difference and [|P|]. *)
Theorem X10_metrics_closed_form dir P T LFR :
  read_prop_com dir = Ok P → T ∩ P ≠ ∅ →
  let per := (Qc_of_Z (len (T ∩ P)) / Qc_of_Z (len P))%Qc in
  let rec := (Qc_of_Z (len (T ∩ P)) / Qc_of_Z (len T))%Qc in
  LFR_error_stats dir T LFR
  = Ok (symmetric_difference T P, per, rec,
        (2 * per * rec / (per + rec))%Qc, len P).
Proof.
  intros Hr HTP. rewrite (LFR_error_stats_read _ _ _ _ Hr).
  rewrite (error_stats_overlap P T LFR HTP). cbv zeta.
  by rewrite len_true_positive_false_positive,
    len_true_positive_false_negative.
Qed.

Lemma X10_metrics_closed_form_witness :
  read_prop_com com_file = Ok {[1; 2; 3]}
  ∧ ({[3; 4]} : gset Z) ∩ {[1; 2; 3]} ≠ ∅
  ∧ LFR_error_stats com_file {[3; 4]} default_LFR
    = Ok ({[1; 2; 4]}, (Qc_of_Z 1 / Qc_of_Z 3)%Qc,
          (Qc_of_Z 1 / Qc_of_Z 2)%Qc,
          (2 * (Qc_of_Z 1 / Qc_of_Z 3) * (Qc_of_Z 1 / Qc_of_Z 2)
           / (Qc_of_Z 1 / Qc_of_Z 3 + Qc_of_Z 1 / Qc_of_Z 2))%Qc, 3).
Proof.
  assert (Hr : read_prop_com com_file = Ok {[1; 2; 3]})
    by (vm_compute; reflexivity).
  assert (Hne : ({[3; 4]} : gset Z) ∩ {[1; 2; 3]} ≠ ∅)
    by (apply (bool_decide_unpack _); vm_compute; exact I).
  split; [exact Hr|]. split; [exact Hne|].
  rewrite (X10_metrics_closed_form com_file _ _ default_LFR Hr Hne).
  apply stats_eq; try Qc_compute; by vm_compute.
Defined.

(** X11. Every tuple [LFR_error_stats] returns has its three metrics
    between 0 and 1 and a proposed size that is not negative; a metric is 0
    only in the tuple of the empty proposed set. *)
Theorem X11_metrics_bounds dir T LFR sym_diff per rec f1 size :
  LFR_error_stats dir T LFR = Ok (sym_diff, per, rec, f1, size) →
  (0 ≤ per ≤ 1)%Qc ∧ (0 ≤ rec ≤ 1)%Qc ∧ (0 ≤ f1 ≤ 1)%Qc ∧ 0 ≤ size
  ∧ (per = 0%Qc ↔ size = 0) ∧ (rec = 0%Qc ↔ size = 0)
  ∧ (f1 = 0%Qc ↔ size = 0).
Proof.
  intros (P & Hr & [[-> [= -> -> -> -> ->]]|[HTP [= -> -> -> -> ->]]]
            %error_stats_ok)%LFR_error_stats_ok.
  { by repeat split. }
  pose proof (len_pos _ HTP) as Ha.
  pose proof (len_true_positive_false_positive P T).
  pose proof (len_true_positive_false_negative P T).
  pose proof (len_nonneg (P ∖ T)). pose proof (len_nonneg (T ∖ P)).
  destruct (Qc_of_Z_div_bounds (len (T ∩ P)) (len P)) as [Hp0 Hp1];
    [lia..|].
  destruct (Qc_of_Z_div_bounds (len (T ∩ P)) (len T)) as [Hr0 Hr1];
    [lia..|].
  destruct (Qc_of_Z_div_bounds (2 * len (T ∩ P)) (len P + len T))
    as [Hf0 Hf1]; [lia..|].
  repeat split; try (by apply Qclt_le_weak); try done; try lia;
    intros Hz; first [lia | by rewrite Hz in *].
Qed.

Lemma X11_metrics_bounds_witness :
  LFR_error_stats overlap_file {[1; 2; 3]} 10
  = Ok ({[1; 4]}, (Qc_of_Z 2 / Qc_of_Z 3)%Qc, (Qc_of_Z 2 / Qc_of_Z 3)%Qc,
        (Qc_of_Z 2 / Qc_of_Z 3)%Qc, 3)
  ∧ (0 ≤ Qc_of_Z 2 / Qc_of_Z 3 ≤ 1)%Qc.
Proof.
  assert (Hr : read_prop_com overlap_file = Ok {[2; 3; 4]})
    by (vm_compute; reflexivity).
  assert (H : LFR_error_stats overlap_file {[1; 2; 3]} 10
              = Ok ({[1; 4]}, (Qc_of_Z 2 / Qc_of_Z 3)%Qc,
                    (Qc_of_Z 2 / Qc_of_Z 3)%Qc,
                    (Qc_of_Z 2 / Qc_of_Z 3)%Qc, 3)).
  { rewrite (LFR_error_stats_read _ _ _ _ Hr), error_stats_overlap.
    - apply stats_eq; try Qc_compute; by vm_compute.
    - apply (bool_decide_unpack _). vm_compute. exact I. }
  split; [exact H|].
  exact (proj1 (X11_metrics_bounds overlap_file _ 10 _ _ _ _ _ H)).
Defined.

Lemma len_inter_full (P T : gset Z) : len (T ∩ P) = len P ↔ P ⊆ T.
Proof.
  split.
  - intros H. assert (T ∩ P = P) as <-; [|set_solver].
    apply set_subseteq_size_eq; [set_solver|]. unfold len in H. lia.
  - intros H. assert (T ∩ P = P) as -> by set_solver. done.
Qed.

(** X12. For a non-empty proposed set [P], the precision returned is 1
    exactly when [P] is a subset of the true set [T], the recall is 1 exactly
    when [T] is a subset of [P], and F1 is 1, like the symmetric difference
    is empty, exactly when [P = T]. *)
Theorem X12_perfect_scores dir P T LFR sym_diff per rec f1 size :
  read_prop_com dir = Ok P → P ≠ ∅ →
  LFR_error_stats dir T LFR = Ok (sym_diff, per, rec, f1, size) →
  (per = 1%Qc ↔ P ⊆ T) ∧ (rec = 1%Qc ↔ T ⊆ P)
  ∧ (f1 = 1%Qc ↔ P = T) ∧ (sym_diff = ∅ ↔ P = T).
Proof.
  intros Hr HP Hs. rewrite (LFR_error_stats_read _ _ _ _ Hr) in Hs.
  apply error_stats_ok in Hs as [[-> _]|[HTP [= -> -> -> -> ->]]]; [done|].
  pose proof (len_pos _ HTP) as Ha.
  pose proof (len_true_positive_false_positive P T) as Hp.
  pose proof (len_true_positive_false_negative P T) as Ht.
  pose proof (len_nonneg (P ∖ T)). pose proof (len_nonneg (T ∖ P)).
  rewrite !Qc_of_Z_div_one by lia.
  rewrite <- (len_inter_full P T).
  assert (len (T ∩ P) = len T ↔ T ⊆ P) as <-.
  { rewrite <- (len_inter_full T P).
    by assert (P ∩ T = T ∩ P) as -> by set_solver. }
  repeat split; try done.
  - intros H2. assert (len (T ∩ P) = len P) as H1 by lia.
    assert (len (T ∩ P) = len T) as H3 by lia.
    apply len_inter_full in H1. rewrite (comm_L (∩)) in H3.
    apply len_inter_full in H3. set_solver.
  - intros ->. assert (T ∩ T = T) as -> by set_solver. lia.
  - apply symmetric_difference_empty.
  - apply symmetric_difference_empty.
Qed.

Lemma X12_perfect_scores_witness :
  read_prop_com com_file = Ok {[1; 2; 3]}
  ∧ ({[1; 2; 3]} : gset Z) ≠ ∅
  ∧ LFR_error_stats com_file {[1; 2; 3; 4]} default_LFR
    = Ok ({[4]}, 1%Qc, (Qc_of_Z 3 / Qc_of_Z 4)%Qc,
          (Qc_of_Z 6 / Qc_of_Z 7)%Qc, 3)
  ∧ (1%Qc = 1%Qc ↔ ({[1; 2; 3]} : gset Z) ⊆ {[1; 2; 3; 4]}).
Proof.
  assert (Hr : read_prop_com com_file = Ok {[1; 2; 3]})
    by (vm_compute; reflexivity).
  assert (Hne : ({[1; 2; 3]} : gset Z) ≠ ∅)
    by (apply (bool_decide_unpack _); vm_compute; exact I).
  assert (Hs : LFR_error_stats com_file {[1; 2; 3; 4]} default_LFR
               = Ok ({[4]}, 1%Qc, (Qc_of_Z 3 / Qc_of_Z 4)%Qc,
                     (Qc_of_Z 6 / Qc_of_Z 7)%Qc, 3)).
  { rewrite (LFR_error_stats_read _ _ _ _ Hr), error_stats_closed.
    - apply stats_eq; try Qc_compute; by vm_compute.
    - apply (bool_decide_unpack _). vm_compute. exact I. }
  split; [exact Hr|]. split; [exact Hne|]. split; [exact Hs|].
  exact (proj1 (X12_perfect_scores com_file _ _ default_LFR _ _ _ _ _
                  Hr Hne Hs)).
Defined.

(** X13. Exchanging the roles of the two sets exchanges precision and
    recall and keeps F1 and the symmetric difference: when two files yield
    the sets [A] and [B] and these have a node in common, scoring [A]
    against the true set [B] and [B] against the true set [A] return the
    same tuple up to that exchange. *)
Theorem X13_exchanging_roles dirA dirB A B LFR1 LFR2 :
  read_prop_com dirA = Ok A → read_prop_com dirB = Ok B → A ∩ B ≠ ∅ →
  ∃ sym_diff per rec f1,
    LFR_error_stats dirA B LFR1 = Ok (sym_diff, per, rec, f1, len A)
    ∧ LFR_error_stats dirB A LFR2 = Ok (sym_diff, rec, per, f1, len B).
Proof.
  intros HA HB HAB.
  rewrite (LFR_error_stats_read _ _ _ _ HA), (LFR_error_stats_read _ _ _ _ HB).
  rewrite (error_stats_closed B A) by done.
  rewrite (error_stats_closed A B) by (by rewrite (comm_L (∩))).
  do 4 eexists. split; [reflexivity|].
  rewrite (comm_L (∩) B A), (Z.add_comm (len B) (len A)).
  apply stats_eq; try done. unfold symmetric_difference. set_solver.
Qed.

Lemma X13_exchanging_roles_witness :
  read_prop_com com_file = Ok {[1; 2; 3]}
  ∧ read_prop_com overlap_file = Ok {[2; 3; 4]}
  ∧ ({[1; 2; 3]} : gset Z) ∩ {[2; 3; 4]} ≠ ∅
  ∧ ∃ sym_diff per rec f1,
      LFR_error_stats com_file {[2; 3; 4]} default_LFR
      = Ok (sym_diff, per, rec, f1, len ({[1; 2; 3]} : gset Z))
      ∧ LFR_error_stats overlap_file {[1; 2; 3]} 10
        = Ok (sym_diff, rec, per, f1, len ({[2; 3; 4]} : gset Z)).
Proof.
  assert (HA : read_prop_com com_file = Ok {[1; 2; 3]})
    by (vm_compute; reflexivity).
  assert (HB : read_prop_com overlap_file = Ok {[2; 3; 4]})
    by (vm_compute; reflexivity).
  assert (Hne : ({[1; 2; 3]} : gset Z) ∩ {[2; 3; 4]} ≠ ∅)
    by (apply (bool_decide_unpack _); vm_compute; exact I).
  split; [exact HA|]. split; [exact HB|]. split; [exact Hne|].
  exact (X13_exchanging_roles com_file overlap_file _ _ default_LFR 10
           HA HB Hne).
Defined.

(** ** The two read modes side by side *)

Lemma size_union_le `{Countable A} (X Y : gset A) :
  (size (X ∪ Y) ≤ size X + size Y)%nat.
Proof.
  rewrite size_union_alt.
  assert (size (Y ∖ X) ≤ size Y)%nat by (apply subseteq_size; set_solver).
  lia.
Qed.

Lemma size_set_map_le `{Countable A} `{Countable B} (f : A → B) (X : gset A) :
  (size (set_map f X : gset B) ≤ size X)%nat.
Proof.
  induction X as [|x X Hx IH] using set_ind_L.
  - by rewrite set_map_empty.
  - rewrite set_map_union_L, set_map_singleton_L.
    rewrite (size_union {[x]} X) by set_solver.
    pose proof (size_union_le ({[f x]} : gset B) (set_map f X)).
    rewrite !size_singleton in *. lia.
Qed.

(** What the loop of [graph_size_from_file] keeps between its counters. *)
Lemma graph_size_loop_bounds split lines nodes edges nodes' edges' :
  graph_size_loop split lines nodes edges = Ok (nodes', edges') →
  edges ≤ edges' ≤ edges + Z.of_nat (length lines)
  ∧ len nodes' ≤ len nodes + 2 * (edges' - edges)
  ∧ (edges < edges' → nodes' ≠ ∅)
  ∧ (edges = edges' → nodes' = nodes).
Proof.
  revert nodes edges.
  induction lines as [|i lines IH]; intros nodes edges; simpl.
  { intros [= -> ->]. repeat split; try lia; done. }
  destruct (_ && _).
  2:{ intros [= -> ->]. repeat split; try lia; done. }
  unbind. repeat case_bind. intros (H1 & H2 & H3 & H4)%IH.
  assert (len ({[s0]} ∪ ({[s]} ∪ nodes)) ≤ len nodes + 2).
  { unfold len. pose proof (size_union_le ({[s0]} : gset string) ({[s]} ∪ nodes)).
    pose proof (size_union_le ({[s]} : gset string) nodes).
    rewrite !size_singleton in *. lia. }
  repeat split; try lia.
  intros _. destruct (decide (edges + 1 = edges')) as [He|He].
  - rewrite (H4 He). apply (non_empty_inhabited_L s0). set_solver.
  - apply H3. lia.
Qed.

(** X14. The pair [graph_size_from_file] returns: the edge count is at
    most the number of lines of the file, the node count at most twice the
    edge count, and one is 0 exactly when the other is. *)
Theorem X14_size_mode_counts dir split nodes edges :
  graph_size_from_file dir split = Ok (nodes, edges) →
  0 ≤ edges ≤ Z.of_nat (length (Py.readlines dir))
  ∧ 0 ≤ nodes ≤ 2 * edges
  ∧ (nodes = 0 ↔ edges = 0).
Proof.
  unfold graph_size_from_file, mbind, result_bind.
  destruct (graph_size_loop _ _ _ _) as [[ns es]|] eqn:Hl; [|done].
  intros [= <- <-]. apply graph_size_loop_bounds in Hl as (H1 & H2 & H3 & H4).
  change (len (∅ : gset string)) with 0 in H2.
  pose proof (len_nonneg ns). repeat split; try lia.
  intros Hz. apply len_zero in Hz.
  destruct (decide (0 = es)) as [|Hne]; [done|]. destruct H3; [lia|done].
Qed.

Lemma X14_size_mode_counts_witness :
  graph_size_from_file com_file default_split = Ok (3, 2)
  ∧ 0 ≤ 2 ≤ Z.of_nat (length (Py.readlines com_file))
  ∧ 0 ≤ 3 ≤ 2 * 2
  ∧ (3 = 0 ↔ 2 = 0).
Proof.
  assert (H : graph_size_from_file com_file default_split = Ok (3, 2))
    by (vm_compute; reflexivity).
  split; [exact H|].
  exact (X14_size_mode_counts com_file default_split 3 2 H).
Defined.

(** The two loops in step: what membership mode reads, size mode reads
    too, and every integer of the one is a field of the other. *)
Lemma prop_com_loop_graph_size_loop lines P0 P nodes0 edges0 :
  prop_com_loop lines P0 = Ok P →
  P0 ⊆ set_map int_or_0 nodes0 →
  ∃ nodes edges,
    graph_size_loop " " lines nodes0 edges0 = Ok (nodes, edges)
    ∧ P ⊆ set_map int_or_0 nodes.
Proof.
  revert P0 nodes0 edges0.
  induction lines as [|i lines IH]; intros P0 nodes0 edges0; simpl.
  { intros [= <-] HP. eauto. }
  rewrite contains_strip. destruct (negb (Py.contains "-1" i)); simpl.
  2:{ intros [= <-] HP. eauto. }
  unbind. destruct (Py.unpack2 _) as [[a b]|] eqn:Hu; [|done]. simpl.
  destruct (Py.int a) as [x|] eqn:Hx; [|done]. simpl.
  destruct (Py.int b) as [y|] eqn:Hy; [|done]. simpl.
  assert (Hne : (Py.strip i =? "")%string = false).
  { apply String.eqb_neq. intros Hi. by rewrite Hi in Hu. }
  rewrite Hne. simpl. intros Hl HP. apply (IH _ _ _ Hl).
  intros z Hz. apply elem_of_map.
  apply elem_of_union in Hz as [->%elem_of_singleton|Hz].
  { exists b. split; [|set_solver]. unfold int_or_0. by rewrite Hy. }
  apply elem_of_union in Hz as [->%elem_of_singleton|Hz].
  { exists a. split; [|set_solver]. unfold int_or_0. by rewrite Hx. }
  apply HP, elem_of_map in Hz as (s & -> & Hs). exists s. set_solver.
Qed.

(** X15. A file that membership mode reads, size mode (with the default
    delimiter) reads too, and the membership set is no larger than the node
    count of size mode, which tells fields apart as strings. *)
Theorem X15_modes_agree dir P :
  read_prop_com dir = Ok P →
  ∃ nodes edges,
    graph_size_from_file dir default_split = Ok (nodes, edges)
    ∧ len P ≤ nodes ≤ 2 * edges.
Proof.
  intros Hr.
  destruct (prop_com_loop_graph_size_loop _ ∅ P ∅ 0 Hr)
    as (ns & es & Hl & HP); [set_solver|].
  exists (len ns), es. unfold graph_size_from_file, default_split.
  rewrite Hl. split; [done|].
  apply graph_size_loop_bounds in Hl as (_ & H2 & _).
  change (len (∅ : gset string)) with 0 in H2. split; [|lia].
  unfold len. apply inj_le. etrans; [by apply subseteq_size|].
  apply size_set_map_le.
Qed.

Lemma X15_modes_agree_witness :
  read_prop_com com_file = Ok {[1; 2; 3]}
  ∧ ∃ nodes edges,
      graph_size_from_file com_file default_split = Ok (nodes, edges)
      ∧ len ({[1; 2; 3]} : gset Z) ≤ nodes ≤ 2 * edges.
Proof.
  assert (Hr : read_prop_com com_file = Ok {[1; 2; 3]})
    by (vm_compute; reflexivity).
  split; [exact Hr|]. exact (X15_modes_agree com_file _ Hr).
Defined.

(** ** The last line of a file *)

Lemma contains_app_nl l : Py.contains "-1" (l +:+ nl) = Py.contains "-1" l.
Proof. by rewrite <- contains_strip, strip_app_nl, contains_strip. Qed.

Lemma graph_size_loop_last_nl split before l nodes edges :
  graph_size_loop split (before ++ [l +:+ nl]) nodes edges
  = graph_size_loop split (before ++ [l]) nodes edges.
Proof.
  revert nodes edges.
  induction before as [|i before IH]; intros nodes edges; simpl.
  - by rewrite strip_app_nl.
  - destruct (_ && _); [|done]. unbind. by repeat case_bind.
Qed.

Lemma prop_com_loop_last_nl before l acc :
  prop_com_loop (before ++ [l +:+ nl]) acc
  = prop_com_loop (before ++ [l]) acc.
Proof.
  revert acc. induction before as [|i before IH]; intros acc; simpl.
  - by rewrite strip_app_nl, contains_app_nl.
  - destruct (negb _); [|done]. unbind. by repeat case_bind.
Qed.

Lemma true_community_loop_last_nl before l n2c c2n :
  l ≠ EmptyString →
  true_community_loop (before ++ [l +:+ nl]) n2c c2n
  = true_community_loop (before ++ [l]) n2c c2n.
Proof.
  intros Hl. revert n2c c2n.
  induction before as [|i before IH]; intros n2c c2n; simpl.
  - rewrite strip_app_nl. apply String.eqb_neq in Hl. rewrite Hl.
    by destruct l.
  - destruct (negb _); [|done]. unbind. by repeat case_bind.
Qed.

(** X16. The newline that ends the last line of a file is optional: the
    three readers return the same with and without it. *)
Theorem X16_final_newline_is_optional pre l split :
  complete pre = true → one_line l = true → l ≠ EmptyString →
  graph_size_from_file (pre +:+ l +:+ nl) split
  = graph_size_from_file (pre +:+ l) split
  ∧ true_community_helper (pre +:+ l +:+ nl)
    = true_community_helper (pre +:+ l)
  ∧ read_prop_com (pre +:+ l +:+ nl) = read_prop_com (pre +:+ l).
Proof.
  intros Hpre Hl Hne.
  unfold graph_size_from_file, true_community_helper, read_prop_com.
  rewrite !(readlines_app _ _ Hpre), (readlines_last_line l Hl Hne).
  pose proof (readlines_one_line l EmptyString Hl) as Hnl.
  change (nl +:+ EmptyString) with nl in Hnl. simpl in Hnl. rewrite Hnl.
  rewrite graph_size_loop_last_nl, prop_com_loop_last_nl.
  by rewrite true_community_loop_last_nl.
Qed.

Lemma X16_final_newline_is_optional_witness :
  complete ("1" +:+ tab +:+ "5" +:+ nl) = true
  ∧ one_line ("2" +:+ tab +:+ "5") = true
  ∧ "2" +:+ tab +:+ "5" ≠ EmptyString
  ∧ true_community_helper
      (("1" +:+ tab +:+ "5" +:+ nl) +:+ ("2" +:+ tab +:+ "5") +:+ nl)
    = true_community_helper
        (("1" +:+ tab +:+ "5" +:+ nl) +:+ ("2" +:+ tab +:+ "5")).
Proof.
  assert (Hne : "2" +:+ tab +:+ "5" ≠ EmptyString) by discriminate.
  do 2 (split; [reflexivity|]). split; [exact Hne|].
  exact (proj1 (proj2 (X16_final_newline_is_optional
                         ("1" +:+ tab +:+ "5" +:+ nl) ("2" +:+ tab +:+ "5")
                         default_split eq_refl eq_refl Hne))).
Defined.

(** ** The sweep of the script *)

Section sweep_facts.
Variable format_line : Z → Qc → Qc → Qc → string.
Variable fs : gmap string string.
Variables (n_t_c : gmap Z Z) (c_t_n : gmap Z (gset Z)).

Lemma sweep_step_done n k nd out nd' out' :
  sweep_step format_line fs n_t_c c_t_n n k (nd, out) = Done (nd', out') →
  ∃ T text sym per rec f1 size s,
    get_true_community n_t_c c_t_n n = Ok T
    ∧ fs !! com_d n k = Some text
    ∧ LFR_error_stats text T default_LFR = Ok (sym, per, rec, f1, size)
    ∧ nd !! n = Some s
    ∧ nd' = <[n := Series (precisions s ++ [per]) (recalls s ++ [rec])
                    (f1s s ++ [f1]) (sizes s ++ [(len T, size)])]> nd
    ∧ out' = (out ++ [format_line k per rec f1])%list.
Proof.
  unfold sweep_step, open, run, getitem, mbind, outcome_bind.
  destruct (get_true_community n_t_c c_t_n n) as [T|]; [|done].
  destruct (fs !! com_d n k) as [text|]; [|done].
  destruct (LFR_error_stats text T default_LFR)
    as [[[[[sym per] rec] f1] size]|] eqn:Hres; [|done].
  destruct (nd !! n) as [s|]; [|done].
  intros [= <- <-]. by exists T, text, sym, per, rec, f1, size, s.
Qed.

Lemma sweep_ks_done n l nd out nd' out' s a :
  sweep_ks format_line fs n_t_c c_t_n n l (nd, out) = Done (nd', out') →
  nd !! n = Some s → filled n_t_c c_t_n n a s →
  (∀ m, m ≠ n → nd' !! m = nd !! m)
  ∧ length out' = (length out + length l)%nat
  ∧ Forall (evaluated fs n_t_c c_t_n n) l
  ∧ ∃ s', nd' !! n = Some s' ∧ filled n_t_c c_t_n n (a + length l) s'.
Proof.
  revert nd out s a.
  induction l as [|k l IH]; intros nd out s a; cbn [sweep_ks].
  { intros [= <- <-] Hs Hf. repeat split; try done; try (simpl; lia).
    exists s. simpl. by rewrite Nat.add_0_r. }
  unfold mbind, outcome_bind.
  destruct (sweep_step format_line fs n_t_c c_t_n n k (nd, out))
    as [[nd1 out1]| |] eqn:Hstep; [|done..].
  apply sweep_step_done in Hstep
    as (T & text & sym & per & rec & f1 & size & s0 & HT & Ht & Hres & Hs0
        & -> & ->).
  intros Hl Hs (Hp & Hr & Hf & Hz & HTs). assert (s0 = s) as -> by congruence.
  eapply (IH _ _ _ (S a)) in Hl as (Hm & Ho & Hev & s' & Hs' & Hfill);
    [|apply lookup_insert_eq|].
  - repeat split.
    + intros m Hmn. rewrite Hm by done. by apply lookup_insert_ne.
    + rewrite Ho, length_app. simpl. lia.
    + constructor; [|done]. by exists T, text, (sym, per, rec, f1, size).
    + exists s'. split; [done|].
      by replace (a + length (k :: l))%nat with (S a + length l)%nat
        by (simpl; lia).
  - repeat split; simpl; rewrite ?length_app; simpl; try lia.
    intros T' HT'. assert (T' = T) as -> by congruence.
    apply Forall_app. split; [by apply HTs|]. repeat constructor. simpl.
    apply LFR_error_stats_ok in Hres as (P & _ & Hstats).
    apply error_stats_ok in Hstats as [[_ [= _ _ _ _ ->]]|[_ [= _ _ _ _ ->]]];
      [done|apply len_nonneg].
Qed.

Lemma sweep_nodes_done nodes nd out nd' out' :
  NoDup nodes →
  (∀ n, n ∈ nodes → nd !! n = Some (Series [] [] [] [])) →
  sweep_nodes format_line fs n_t_c c_t_n nodes (nd, out) = Done (nd', out') →
  (∀ m, m ∉ nodes → nd' !! m = nd !! m)
  ∧ length out' = (length out + length nodes * length ks)%nat
  ∧ ∀ n, n ∈ nodes →
         Forall (evaluated fs n_t_c c_t_n n) ks
         ∧ ∃ s, nd' !! n = Some s ∧ filled n_t_c c_t_n n (length ks) s.
Proof.
  intros Hnd. revert nd out.
  induction Hnd as [|n nodes Hn Hnd IH]; intros nd out Hinit;
    cbn [sweep_nodes].
  { intros [= <- <-]. split; [done|]. split; [simpl; lia|].
    by intros n ?%elem_of_nil. }
  unfold mbind, outcome_bind.
  destruct (sweep_ks format_line fs n_t_c c_t_n n ks (nd, out))
    as [[nd1 out1]| |] eqn:Hks; [|done..].
  eapply (sweep_ks_done _ _ _ _ _ _ _ 0) in Hks
    as (Hm & Ho & Hev & s & Hs & Hfill);
    [|apply Hinit, elem_of_cons; by left|by repeat split].
  intros Hrest. apply IH in Hrest as (Hm' & Ho' & Hall).
  2:{ intros m Hmn. rewrite Hm by (intros ->; done).
      apply Hinit, elem_of_cons. by right. }
  split; [|split].
  - intros m Hmn%not_elem_of_cons. rewrite Hm' by tauto. apply Hm. tauto.
  - rewrite Ho', Ho. simpl. lia.
  - intros m [->|Hin]%elem_of_cons; [|by apply Hall].
    split; [done|]. exists s. split; [|done]. by rewrite Hm'.
Qed.

Lemma sweep_step_complete n k nd out s :
  evaluated fs n_t_c c_t_n n k → nd !! n = Some s →
  ∃ st', sweep_step format_line fs n_t_c c_t_n n k (nd, out) = Done st'.
Proof.
  intros (T & text & [[[[sym per] rec] f1] size] & HT & Ht & Hres) Hs.
  unfold sweep_step, open, run, getitem, mbind, outcome_bind.
  rewrite HT, Ht, Hres, Hs. eauto.
Qed.

Lemma sweep_ks_keys n l nd out nd' out' m :
  sweep_ks format_line fs n_t_c c_t_n n l (nd, out) = Done (nd', out') →
  is_Some (nd !! m) → is_Some (nd' !! m).
Proof.
  revert nd out. induction l as [|k l IH]; intros nd out; cbn [sweep_ks].
  { by intros [= <- <-]. }
  unfold mbind, outcome_bind.
  destruct (sweep_step format_line fs n_t_c c_t_n n k (nd, out))
    as [[nd1 out1]| |] eqn:Hstep; [|done..].
  apply sweep_step_done in Hstep
    as (T & text & sym & per & rec & f1 & size & s0 & _ & _ & _ & _ & -> & _).
  intros Hl Hm. apply (IH _ _ Hl). rewrite lookup_insert_is_Some. 
  destruct (decide (n = m)); auto.
Qed.

Lemma sweep_ks_complete n l nd out :
  Forall (evaluated fs n_t_c c_t_n n) l → is_Some (nd !! n) →
  ∃ st', sweep_ks format_line fs n_t_c c_t_n n l (nd, out) = Done st'.
Proof.
  intros Hl. revert nd out.
  induction Hl as [|k l Hk Hl IH]; intros nd out [s Hs]; cbn [sweep_ks].
  { eauto. }
  destruct (sweep_step_complete n k nd out s Hk Hs) as [[nd1 out1] Hstep].
  unfold mbind, outcome_bind. rewrite Hstep. apply IH.
  apply sweep_step_done in Hstep
    as (T & text & sym & per & rec & f1 & size & s0 & _ & _ & _ & _ & -> & _).
  rewrite lookup_insert_eq. eauto.
Qed.

Lemma sweep_nodes_complete nodes nd out :
  (∀ n, n ∈ nodes → Forall (evaluated fs n_t_c c_t_n n) ks) →
  (∀ n, n ∈ nodes → is_Some (nd !! n)) →
  ∃ st', sweep_nodes format_line fs n_t_c c_t_n nodes (nd, out) = Done st'.
Proof.
  revert nd out.
  induction nodes as [|n nodes IH]; intros nd out Hev Hkeys;
    cbn [sweep_nodes].
  { eauto. }
  destruct (sweep_ks_complete n ks nd out) as [[nd1 out1] Hks].
  { apply Hev, elem_of_cons. by left. }
  { apply Hkeys, elem_of_cons. by left. }
  unfold mbind, outcome_bind. rewrite Hks. apply IH.
  - intros m Hm. apply Hev, elem_of_cons. by right.
  - intros m Hm. eapply sweep_ks_keys; [done|].
    apply Hkeys, elem_of_cons. by right.
Qed.


End sweep_facts.

Lemma query_nodes_NoDup : NoDup query_nodes.
Proof. apply (bool_decide_unpack _). by vm_compute. Qed.

Lemma elem_of_ks k : k ∈ ks ↔ 10 ≤ k < 26.
Proof. unfold ks. rewrite elem_of_seqZ. lia. Qed.

(** The dictionary comprehension of line 111. *)
Lemma n_data_init n :
  (list_to_map ((λ n, (n, Series [] [] [] [])) <$> query_nodes)
     : gmap Z series) !! n
  = if bool_decide (n ∈ query_nodes) then Some (Series [] [] [] []) else None.
Proof.
  case_bool_decide as Hn.
  - unfold query_nodes in Hn.
    repeat (apply elem_of_cons in Hn as [->|Hn]; [by vm_compute|]).
    by apply elem_of_nil in Hn.
  - apply not_elem_of_list_to_map_1. by rewrite <- list_fmap_compose, list_fmap_id.
Qed.

Lemma main_sweep_done format_line fs n_data out :
  main_sweep format_line fs = Done (n_data, out) →
  ∃ text n_t_c c_t_n,
    fs !! true_d = Some text
    ∧ true_community_helper text = Ok (n_t_c, c_t_n)
    ∧ (∀ m, m ∉ query_nodes → n_data !! m = None)
    ∧ length out = (length query_nodes * length ks)%nat
    ∧ ∀ n, n ∈ query_nodes →
           Forall (evaluated fs n_t_c c_t_n n) ks
           ∧ ∃ s, n_data !! n = Some s ∧ filled n_t_c c_t_n n (length ks) s.
Proof.
  unfold main_sweep, open, run, mbind, outcome_bind.
  destruct (fs !! true_d) as [text|]; [|done].
  destruct (true_community_helper text) as [[n_t_c c_t_n]|] eqn:Hh; [|done].
  intros (Hm & Ho & Hall)%sweep_nodes_done.
  - exists text, n_t_c, c_t_n. do 2 (split; [done|]).
    split; [|split; [exact Ho|exact Hall]].
    intros m Hmn. rewrite (Hm m Hmn), n_data_init. by case_bool_decide.
  - apply query_nodes_NoDup.
  - intros n Hn. rewrite n_data_init. by case_bool_decide.
Qed.

Lemma main_sweep_completes format_line fs text n_t_c c_t_n :
  fs !! true_d = Some text →
  true_community_helper text = Ok (n_t_c, c_t_n) →
  (∀ n k, n ∈ query_nodes → k ∈ ks → evaluated fs n_t_c c_t_n n k) →
  ∃ n_data out, main_sweep format_line fs = Done (n_data, out).
Proof.
  intros Ht Hh Hev. unfold main_sweep, open, run, mbind, outcome_bind.
  rewrite Ht, Hh.
  edestruct (sweep_nodes_complete format_line fs n_t_c c_t_n query_nodes)
    as [[n_data out] Hs]; [| |eauto].
  - intros n Hn. apply Forall_forall. intros k Hk. by apply Hev.
  - intros n Hn. rewrite n_data_init. case_bool_decide; [eauto|done].
Qed.

(** X17. The sweep of the script is all or nothing: it gets through
    exactly when the ground-truth file is there and is read, every query
    node has a true community, and for every query node and every [k] from
    10 to 25 the community file is there and is scored without an
    exception. *)
Theorem X17_sweep_completes_iff format_line fs :
  (∃ n_data out, main_sweep format_line fs = Done (n_data, out))
  ↔ ∃ text n_t_c c_t_n,
      fs !! true_d = Some text
      ∧ true_community_helper text = Ok (n_t_c, c_t_n)
      ∧ ∀ n k, n ∈ query_nodes → 10 ≤ k < 26 →
          ∃ T com res,
            get_true_community n_t_c c_t_n n = Ok T
            ∧ fs !! com_d n k = Some com
            ∧ LFR_error_stats com T default_LFR = Ok res.
Proof.
  split.
  - intros (n_data & out & (text & n_t_c & c_t_n & Ht & Hh & _ & _ & Hall)
                            %main_sweep_done).
    exists text, n_t_c, c_t_n. do 2 (split; [done|]).
    intros n k Hn Hk%elem_of_ks. destruct (Hall n Hn) as [Hev _].
    rewrite Forall_forall in Hev. by apply Hev.
  - intros (text & n_t_c & c_t_n & Ht & Hh & Hall).
    apply (main_sweep_completes _ _ _ _ _ Ht Hh).
    intros n k Hn Hk%elem_of_ks. by apply Hall.
Qed.

(** X18. When the sweep gets through, it has printed 64 lines and
    [n_data] has the four query nodes as its keys; each of the four lists of
    a query node holds 16 entries, and every pair of the fourth list holds
    the size of that node's true community and a proposed size that is not
    negative. *)
Theorem X18_sweep_series format_line fs n_data out :
  main_sweep format_line fs = Done (n_data, out) →
  length out = 64%nat
  ∧ (∀ n, is_Some (n_data !! n) ↔ n ∈ query_nodes)
  ∧ ∀ n s, n_data !! n = Some s →
      length (precisions s) = 16%nat ∧ length (recalls s) = 16%nat
      ∧ length (f1s s) = 16%nat ∧ length (sizes s) = 16%nat
      ∧ ∃ text n_t_c c_t_n T,
          fs !! true_d = Some text
          ∧ true_community_helper text = Ok (n_t_c, c_t_n)
          ∧ get_true_community n_t_c c_t_n n = Ok T
          ∧ Forall (λ p, p.1 = len T ∧ 0 ≤ p.2) (sizes s).
Proof.
  intros (text & n_t_c & c_t_n & Ht & Hh & Hm & Ho & Hall)%main_sweep_done.
  split; [exact Ho|].
  assert (Hkeys : ∀ n, is_Some (n_data !! n) ↔ n ∈ query_nodes).
  { intros n. split.
    - intros [s Hs]. destruct (decide (n ∈ query_nodes)) as [|Hn]; [done|].
      rewrite (Hm n Hn) in Hs. done.
    - intros Hn. destruct (Hall n Hn) as (_ & s & Hs & _). eauto. }
  split; [exact Hkeys|]. intros n s Hs.
  assert (Hn : n ∈ query_nodes) by (apply Hkeys; eauto).
  destruct (Hall n Hn) as (Hev & s' & Hs' & Hp & Hr & Hf & Hz & HT).
  assert (s' = s) as -> by congruence.
  do 4 (split; [done|]).
  inversion_clear Hev as [|?? (T & com & res & HTn & _ & _) _].
  exists text, n_t_c, c_t_n, T. repeat split; try done. by apply HT.
Qed.

Lemma sweep_fs_evaluated n k :
  n ∈ query_nodes → k ∈ ks →
  evaluated sweep_fs
    (list_to_map [(9525, 1); (9002, 1); (8808, 1); (6789, 1)])
    {[1 := {[9525; 9002; 8808; 6789]}]} n k.
Proof.
  intros Hn Hk.
  assert (Hr : read_prop_com sweep_com = Ok {[9525; 9002]})
    by (vm_compute; reflexivity).
  exists {[9525; 9002; 8808; 6789]}, sweep_com. eexists.
  split; [|split].
  - unfold query_nodes in Hn.
    repeat (apply elem_of_cons in Hn as [->|Hn]; [by vm_compute|]).
    by apply elem_of_nil in Hn.
  - unfold query_nodes in Hn. vm_compute in Hk.
    repeat (apply elem_of_cons in Hn as [->|Hn];
            [repeat (apply elem_of_cons in Hk as [->|Hk];
                     [vm_compute; reflexivity|]);
             by apply elem_of_nil in Hk|]).
    by apply elem_of_nil in Hn.
  - rewrite (LFR_error_stats_read _ _ _ _ Hr), error_stats_closed;
      [reflexivity|].
    apply (bool_decide_unpack _). vm_compute. exact I.
Qed.

Lemma X18_sweep_series_witness :
  ∃ n_data out,
    main_sweep (λ k _ _ _, pretty k) sweep_fs = Done (n_data, out)
    ∧ length out = 64%nat
    ∧ ∀ n, is_Some (n_data !! n) ↔ n ∈ query_nodes.
Proof.
  destruct (main_sweep_completes (λ k _ _ _, pretty k) sweep_fs sweep_truth
              (list_to_map [(9525, 1); (9002, 1); (8808, 1); (6789, 1)])
              {[1 := {[9525; 9002; 8808; 6789]}]})
    as (n_data & out & H).
  - vm_compute. reflexivity.
  - vm_compute. reflexivity.
  - apply sweep_fs_evaluated.
  - exists n_data, out. split; [exact H|].
    pose proof (X18_sweep_series _ _ _ _ H) as (H1 & H2 & _).
    split; [exact H1|exact H2].
Defined.
